(** * liblight/lights.c: the breathing-light arbitration of the Nubia Z11 lights HAL

    A shallow embedding of [src/liblight/lights.c].  The file-scope globals
    of the C file ([active_states], [last_state], the four [g_*] tables and the
    two function-local [static] flags) are the fields of one record that every
    function threads through a small state monad.  The sysfs nodes are
    write-only for the HAL, so the outside world is a script of outcomes, one
    per [open]/[write] pair, together with the trace of what was attempted and
    the lines handed to [ALOGE]. *)

From Stdlib Require Import ZArith List String Ascii Bool Lia.
Import ListNotations.

Local Open Scope string_scope.
Local Open Scope list_scope.
Local Open Scope Z_scope.

(** ** Constants of the C file *)

Definition BLINK_MODE_ON : string := "6".
Definition BLINK_MODE_BREATH : string := "3".
Definition BLINK_MODE_OFF : string := "2".

Definition CHANNEL_BUTTONS : Z := 8.
Definition CHANNEL_RED : Z := 16.

Definition BRIGHTNESS_BUTTONS : Z := 3.
Definition BRIGHTNESS_RED : Z := 8.

Definition BREATH_SOURCE_NOTIFICATION : Z := 0x01.
Definition BREATH_SOURCE_BATTERY : Z := 0x02.
Definition BREATH_SOURCE_BUTTONS : Z := 0x04.
Definition BREATH_SOURCE_ATTENTION : Z := 0x08.
Definition BREATH_SOURCE_NONE : Z := 0xFF.

Definition LCD_FILE : string := "/sys/class/leds/lcd-backlight/brightness".
Definition BREATH_RED_LED : string := "/sys/class/leds/nubia_led/blink_mode".
Definition BREATH_RED_OUTN : string := "/sys/class/leds/nubia_led/outn".
Definition BREATH_RED_GRADE : string := "/sys/class/leds/nubia_led/grade_parameter".

(** ** Data *)

(** Modelled from the spec: the declaration of [struct light_state_t] lives in
    the platform header [hardware/lights.h], which is not among the sources.
    The spec gives a logical light state its packed [color]; it is the only
    field [lights.c] ever reads.  A C [unsigned int] is a [Z] here: the shifts
    and masks applied to it below are total on [Z]. *)
Record light_state_t : Type := mkLight { color : Z }.

(** What one call of [write_int] or [write_str] hands to [write(2)]. *)
Inductive payload : Type :=
| PInt (value : Z)
| PStr (value : string).

(** What the kernel answers to one [open]/[write] pair: [open] fails with an
    [errno], or the file opens and [write] returns [amt] (with [errno] set when
    [amt] is [-1]). *)
Inductive io_result : Type :=
| OpenFails (errno : Z)
| Written (amt : Z) (errno : Z).

Record io_event : Type := mkEvent {
  ev_path : string;
  ev_data : payload;
  ev_result : io_result
}.

(** The globals of the translation unit and the world around it. *)
Record state : Type := mkState {
  active_states : Z;
  last_state : Z;
  g_attention : light_state_t;
  g_notification : light_state_t;
  g_battery : light_state_t;
  g_buttons : light_state_t;
  write_int_already_warned : Z;      (* [static int already_warned] of write_int *)
  write_str_already_warned : Z;      (* [static int already_warned] of write_str *)
  pending : list io_result;          (* outcomes the sysfs nodes will give *)
  issued : list io_event;            (* every write attempted so far, oldest first *)
  logcat : list string               (* lines passed to ALOGE, oldest first *)
}.

Definition set_active_states (v : Z) (s : state) : state :=
  mkState v (last_state s) (g_attention s) (g_notification s) (g_battery s)
    (g_buttons s) (write_int_already_warned s) (write_str_already_warned s)
    (pending s) (issued s) (logcat s).

Definition set_last_state (v : Z) (s : state) : state :=
  mkState (active_states s) v (g_attention s) (g_notification s) (g_battery s)
    (g_buttons s) (write_int_already_warned s) (write_str_already_warned s)
    (pending s) (issued s) (logcat s).

Definition set_g_attention (v : light_state_t) (s : state) : state :=
  mkState (active_states s) (last_state s) v (g_notification s) (g_battery s)
    (g_buttons s) (write_int_already_warned s) (write_str_already_warned s)
    (pending s) (issued s) (logcat s).

Definition set_g_notification (v : light_state_t) (s : state) : state :=
  mkState (active_states s) (last_state s) (g_attention s) v (g_battery s)
    (g_buttons s) (write_int_already_warned s) (write_str_already_warned s)
    (pending s) (issued s) (logcat s).

Definition set_g_battery (v : light_state_t) (s : state) : state :=
  mkState (active_states s) (last_state s) (g_attention s) (g_notification s) v
    (g_buttons s) (write_int_already_warned s) (write_str_already_warned s)
    (pending s) (issued s) (logcat s).

Definition set_g_buttons (v : light_state_t) (s : state) : state :=
  mkState (active_states s) (last_state s) (g_attention s) (g_notification s)
    (g_battery s) v (write_int_already_warned s) (write_str_already_warned s)
    (pending s) (issued s) (logcat s).

Definition set_write_int_already_warned (v : Z) (s : state) : state :=
  mkState (active_states s) (last_state s) (g_attention s) (g_notification s)
    (g_battery s) (g_buttons s) v (write_str_already_warned s)
    (pending s) (issued s) (logcat s).

Definition set_write_str_already_warned (v : Z) (s : state) : state :=
  mkState (active_states s) (last_state s) (g_attention s) (g_notification s)
    (g_battery s) (g_buttons s) (write_int_already_warned s) v
    (pending s) (issued s) (logcat s).

(** The state a freshly loaded module starts in: C zero-initialises the
    statics, [last_state] starts at [BREATH_SOURCE_NONE]. *)
Definition initial_state (script : list io_result) : state :=
  mkState 0 BREATH_SOURCE_NONE (mkLight 0) (mkLight 0) (mkLight 0) (mkLight 0)
    0 0 script [] [].

(** ** The monad the functions live in *)

Definition M (A : Type) : Type := state -> A * state.

Definition ret {A : Type} (a : A) : M A := fun s => (a, s).

Definition bind {A B : Type} (m : M A) (k : A -> M B) : M B :=
  fun s => let (a, s') := m s in k a s'.

Definition gets {A : Type} (f : state -> A) : M A := fun s => (f s, s).

Definition modify (f : state -> state) : M unit := fun s => (tt, f s).

Declare Scope light_scope.
Delimit Scope light_scope with light.
Notation "x <- m ;; k" := (bind m (fun x => k))
  (at level 61, m at next level, right associativity) : light_scope.
Notation "m ;; k" := (bind m (fun _ => k))
  (at level 61, right associativity) : light_scope.
Local Open Scope light_scope.

(** ** The hardware sink *)

Definition newline : string := String (ascii_of_nat 10) EmptyString.

(** [ALOGE(fmt, ...)] with the format already expanded. *)
Definition ALOGE (line : string) : M unit :=
  modify (fun s =>
    mkState (active_states s) (last_state s) (g_attention s) (g_notification s)
      (g_battery s) (g_buttons s) (write_int_already_warned s)
      (write_str_already_warned s) (pending s) (issued s) (logcat s ++ [line])).

(** [open(path, O_RDWR)] followed, when it succeeds, by [write] and [close]:
    the next outcome of the script is consumed and the attempt is recorded.
    A script that has run out answers with a complete write. *)
Definition sysfs_io (path : string) (data : payload) : M io_result :=
  fun s =>
    let r := match pending s with
             | [] => Written 1 0
             | r :: _ => r
             end in
    (r, mkState (active_states s) (last_state s) (g_attention s)
          (g_notification s) (g_battery s) (g_buttons s)
          (write_int_already_warned s) (write_str_already_warned s)
          (tl (pending s)) (issued s ++ [mkEvent path data r]) (logcat s)).

Definition write_int (path : string) (value : Z) : M Z :=
  r <- sysfs_io path (PInt value) ;;
  match r with
  | Written amt errno => ret (if amt =? -1 then - errno else 0)
  | OpenFails errno =>
      warned <- gets write_int_already_warned ;;
      (if warned =? 0 then
         ALOGE ("write_int failed to open " ++ path ++ newline)%string ;;
         modify (set_write_int_already_warned 1)
       else ret tt) ;;
      ret (- errno)
  end.

Definition write_str (path : string) (value : string) : M Z :=
  r <- sysfs_io path (PStr value) ;;
  match r with
  | Written amt errno => ret (if amt =? -1 then - errno else 0)
  | OpenFails errno =>
      warned <- gets write_str_already_warned ;;
      (if warned =? 0 then
         ALOGE ("write_str failed to open " ++ path ++ newline)%string ;;
         modify (set_write_str_already_warned 1)
       else ret tt) ;;
      ret (- errno)
  end.

(** ** Backlight *)

Definition rgb_to_brightness (state : light_state_t) : Z :=
  let color := Z.land (color state) 0x00ffffff in
  (Z.land (Z.shiftr color 16) 0xff
   + Z.land (Z.shiftr color 8) 0xff
   + Z.land color 0xff) / 3.

(** [g_lock] is taken around the write; calls are sequential here. *)
Definition set_light_backlight (state : light_state_t) : M Z :=
  let brightness := rgb_to_brightness state in
  err <- write_int LCD_FILE brightness ;;
  ret err.

(** ** The arbitration engine *)

(** A C condition: any non-zero integer is true. *)
Definition truthy (z : Z) : bool := negb (z =? 0).

(** How a block of the C function ends: by a [return], or by falling through
    to the statements after it with the locals it has set. *)
Inductive flow (A : Type) : Type :=
| Return (status : Z)
| Continue (locals : A).
Arguments Return {A} status.
Arguments Continue {A} locals.

(** The priority chain hands on two locals: the [state] pointer, retargeted to
    the winner's table entry (and never read again), and [blink_mode], which
    the Buttons arm leaves unset. *)
Definition set_breath_light_locked (event_source : Z) (state : light_state_t)
  : M Z :=
  let brightness := Z.land (Z.shiftr (color state) 16) 0xFF in
  off <- (if brightness >? 0 then
            modify (fun s =>
              set_active_states (Z.lor (active_states s) event_source) s) ;;
            ret (Continue tt)
          else
            modify (fun s =>
              set_active_states
                (Z.land (active_states s) (Z.lnot event_source)) s) ;;
            write_int BREATH_RED_OUTN CHANNEL_BUTTONS ;;
            write_str BREATH_RED_LED BLINK_MODE_OFF ;;
            write_int BREATH_RED_OUTN CHANNEL_RED ;;
            write_str BREATH_RED_LED BLINK_MODE_OFF ;;
            a <- gets active_states ;;
            if a =? 0 then
              modify (set_last_state BREATH_SOURCE_NONE) ;;
              ret (Return 0)
            else ret (Continue tt)) ;;
  match off with
  | Return status => ret status
  | Continue _ =>
    a <- gets active_states ;;
    sel <- (if truthy (Z.land a BREATH_SOURCE_NOTIFICATION) then
              g <- gets g_notification ;;
              modify (set_last_state BREATH_SOURCE_NOTIFICATION) ;;
              ret (Continue (g, Some BLINK_MODE_BREATH))
            else if truthy (Z.land a BREATH_SOURCE_BATTERY) then
              g <- gets g_battery ;;
              modify (set_last_state BREATH_SOURCE_BATTERY) ;;
              ret (Continue (g, Some BLINK_MODE_BREATH))
            else if truthy (Z.land a BREATH_SOURCE_BUTTONS) then
              l <- gets last_state ;;
              if l =? BREATH_SOURCE_BUTTONS then ret (Return 0)
              else
                g <- gets g_buttons ;;
                modify (set_last_state BREATH_SOURCE_BUTTONS) ;;
                ret (Continue (g, None))
            else if truthy (Z.land a BREATH_SOURCE_ATTENTION) then
              g <- gets g_attention ;;
              modify (set_last_state BREATH_SOURCE_ATTENTION) ;;
              ret (Continue (g, Some BLINK_MODE_BREATH))
            else
              modify (set_last_state BREATH_SOURCE_NONE) ;;
              ALOGE " Unknown state" ;;
              ret (Return 0)) ;;
    match sel with
    | Return status => ret status
    | Continue (_, blink_mode) =>
      a <- gets active_states ;;
      (if Z.land a BREATH_SOURCE_BUTTONS =? 0 then
         ALOGE " Red led on" ;;
         write_int BREATH_RED_OUTN CHANNEL_RED ;;
         match blink_mode with
         | Some mode => write_str BREATH_RED_LED mode
         | None => ret 0    (* [blink_mode] unset; this arm is never reached *)
         end
       else
         ALOGE " Button led on" ;;
         write_int BREATH_RED_OUTN CHANNEL_BUTTONS ;;
         write_int BREATH_RED_GRADE BRIGHTNESS_BUTTONS ;;
         write_str BREATH_RED_LED BLINK_MODE_ON ;;
         write_int BREATH_RED_OUTN CHANNEL_RED ;;
         write_int BREATH_RED_GRADE BRIGHTNESS_RED ;;
         write_str BREATH_RED_LED BLINK_MODE_ON) ;;
      ret 0
    end
  end.

(** ** The device facade: one [set_light] entry per logical source *)

Definition set_light_buttons (state : light_state_t) : M Z :=
  modify (set_g_buttons state) ;;
  g <- gets g_buttons ;;
  set_breath_light_locked BREATH_SOURCE_BUTTONS g ;;
  ret 0.

Definition set_light_battery (state : light_state_t) : M Z :=
  modify (set_g_battery state) ;;
  g <- gets g_battery ;;
  set_breath_light_locked BREATH_SOURCE_BATTERY g ;;
  ret 0.

Definition set_light_notifications (state : light_state_t) : M Z :=
  modify (set_g_notification state) ;;
  g <- gets g_notification ;;
  set_breath_light_locked BREATH_SOURCE_NOTIFICATION g ;;
  ret 0.

Definition set_light_attention (state : light_state_t) : M Z :=
  modify (set_g_attention state) ;;
  g <- gets g_attention ;;
  set_breath_light_locked BREATH_SOURCE_ATTENTION g ;;
  ret 0.

(** The four logical sources that share the breathing LED. *)
Inductive source : Type := Notification | Battery | Buttons | Attention.

Definition source_bit (src : source) : Z :=
  match src with
  | Notification => BREATH_SOURCE_NOTIFICATION
  | Battery => BREATH_SOURCE_BATTERY
  | Buttons => BREATH_SOURCE_BUTTONS
  | Attention => BREATH_SOURCE_ATTENTION
  end.

Definition source_eqb (x y : source) : bool :=
  match x, y with
  | Notification, Notification | Battery, Battery
  | Buttons, Buttons | Attention, Attention => true
  | _, _ => false
  end.

Definition table_entry (src : source) (s : state) : light_state_t :=
  match src with
  | Notification => g_notification s
  | Battery => g_battery s
  | Buttons => g_buttons s
  | Attention => g_attention s
  end.

(** The [set_light] pointer that [open_lights] installs for a source. *)
Definition update (src : source) (new_state : light_state_t) : M Z :=
  match src with
  | Notification => set_light_notifications new_state
  | Battery => set_light_battery new_state
  | Buttons => set_light_buttons new_state
  | Attention => set_light_attention new_state
  end.

(** A call arriving from the framework, and a run of such calls. *)
Inductive call : Type :=
| Update (src : source) (new_state : light_state_t)
| SetBacklight (new_state : light_state_t).

Definition perform (c : call) : M Z :=
  match c with
  | Update src new_state => update src new_state
  | SetBacklight new_state => set_light_backlight new_state
  end.

Fixpoint run (calls : list call) (s : state) : state :=
  match calls with
  | [] => s
  | c :: rest => run rest (snd (perform c s))
  end.

(** The writes a computation adds to the trace, as (control point, value). *)
Definition hw_write : Type := (string * payload)%type.

Definition writes_of (evs : list io_event) : list hw_write :=
  map (fun e => (ev_path e, ev_data e)) evs.

Definition new_events {A : Type} (m : M A) (s : state) : list io_event :=
  skipn (List.length (issued s)) (issued (snd (m s))).

Definition new_writes {A : Type} (m : M A) (s : state) : list hw_write :=
  writes_of (new_events m s).

(** ** Module methods *)

(** Modelled from the spec: the [LIGHT_ID_*] macros are declared in the
    platform header [hardware/lights.h], which is not among the sources.  The
    spec lists the recognised names: backlight, buttons, battery,
    notifications, attention. *)
Definition LIGHT_ID_BACKLIGHT : string := "backlight".
Definition LIGHT_ID_BUTTONS : string := "buttons".
Definition LIGHT_ID_BATTERY : string := "battery".
Definition LIGHT_ID_NOTIFICATIONS : string := "notifications".
Definition LIGHT_ID_ATTENTION : string := "attention".

(** [EINVAL] of [<errno.h>], with its Linux value. *)
Definition EINVAL : Z := 22.

(** [free(dev)] leaves nothing to observe here. *)
Definition close_lights : M Z := ret 0.

(** What [open_lights] fills in of a [struct light_device_t]: the version,
    the [close] pointer and the [set_light] pointer.  The tag and the module
    back pointer are framework constants that no function of the file reads. *)
Record light_device_t : Type := mkDevice {
  common_version : Z;
  common_close : M Z;
  set_light : light_state_t -> M Z
}.

(** [strcmp] against each identifier in turn; an unknown name returns
    [-EINVAL] before anything is allocated and [*device] is left alone.
    [pthread_once] and [malloc] (whose result the code does not test) have no
    counterpart in a sequential model. *)
Definition open_lights (name : string) : Z * option light_device_t :=
  let found (f : light_state_t -> M Z) :=
    (0, Some (mkDevice 0 close_lights f)) in
  if String.eqb LIGHT_ID_BACKLIGHT name then found set_light_backlight
  else if String.eqb LIGHT_ID_BUTTONS name then found set_light_buttons
  else if String.eqb LIGHT_ID_BATTERY name then found set_light_battery
  else if String.eqb LIGHT_ID_NOTIFICATIONS name then
    found set_light_notifications
  else if String.eqb LIGHT_ID_ATTENTION name then found set_light_attention
  else (- EINVAL, None).

(** ** The spec's vocabulary *)

(** A source is active in the set [a] when its bit is set. *)
Definition bit_set (a : Z) (src : source) : bool :=
  truthy (Z.land a (source_bit src)).

(** The red-channel byte of a packed colour: bits 16 to 23. *)
Definition derived_brightness (ls : light_state_t) : Z :=
  (color ls / 2 ^ 16) mod 2 ^ 8.

(** Fixed descending priority. *)
Definition priority : list source := [Notification; Battery; Buttons; Attention].

Definition winner (a : Z) : option source := find (bit_set a) priority.

(** [last_state] as the spec's LastAppliedSource. *)
Definition source_code (w : option source) : Z :=
  match w with
  | Some src => source_bit src
  | None => BREATH_SOURCE_NONE
  end.

Definition off_sequence : list hw_write :=
  [ (BREATH_RED_OUTN, PInt 8); (BREATH_RED_LED, PStr "2");
    (BREATH_RED_OUTN, PInt 16); (BREATH_RED_LED, PStr "2") ].

Definition breathing_sequence : list hw_write :=
  [ (BREATH_RED_OUTN, PInt 16); (BREATH_RED_LED, PStr "3") ].

Definition buttons_on_sequence : list hw_write :=
  [ (BREATH_RED_OUTN, PInt 8); (BREATH_RED_GRADE, PInt 3);
    (BREATH_RED_LED, PStr "6");
    (BREATH_RED_OUTN, PInt 16); (BREATH_RED_GRADE, PInt 8);
    (BREATH_RED_LED, PStr "6") ].

(** The most recent update of [src] in a run of calls, if any. *)
Fixpoint last_update (src : source) (calls : list call) : option light_state_t :=
  match calls with
  | [] => None
  | c :: rest =>
      match last_update src rest with
      | Some ls => Some ls
      | None =>
          match c with
          | Update src' ls =>
              if source_eqb src' src then Some ls else None
          | SetBacklight _ => None
          end
      end
  end.

(** The answer the sink gives to the next attempt. *)
Definition next_result (s : state) : io_result :=
  match pending s with
  | [] => Written 1 0
  | r :: _ => r
  end.

Definition is_open_failure (r : io_result) : bool :=
  match r with
  | OpenFails _ => true
  | Written _ _ => false
  end.

(** The status [write_int] and [write_str] compute from an outcome. *)
Definition status_of (r : io_result) : Z :=
  match r with
  | OpenFails errno => - errno
  | Written amt errno => if amt =? -1 then - errno else 0
  end.

Definition int_open_message (path : string) : string :=
  ("write_int failed to open " ++ path ++ newline)%string.

Definition str_open_message (path : string) : string :=
  ("write_str failed to open " ++ path ++ newline)%string.

(** ** Vocabulary of the proofs

    None of what follows is part of the program.  [arbitrate] restates the
    control flow of [set_breath_light_locked] as a function of the two
    arbitration globals; [set_breath_light_locked_settle] shows that running
    the embedded function is the same as carrying its verdict out. *)

(** The three things the engine does to the world, and a run of them. *)
Inductive action : Type :=
| DoInt (path : string) (value : Z)
| DoStr (path : string) (value : string)
| DoLog (line : string).

Definition act (a : action) (s : state) : state :=
  match a with
  | DoInt path value => snd (write_int path value s)
  | DoStr path value => snd (write_str path value s)
  | DoLog line => snd (ALOGE line s)
  end.

Fixpoint exec (acts : list action) (s : state) : state :=
  match acts with
  | [] => s
  | a :: rest => exec rest (act a s)
  end.

Fixpoint action_writes (acts : list action) : list hw_write :=
  match acts with
  | [] => []
  | DoInt path value :: rest => (path, PInt value) :: action_writes rest
  | DoStr path value :: rest => (path, PStr value) :: action_writes rest
  | DoLog _ :: rest => action_writes rest
  end.

Definition off_actions : list action :=
  [ DoInt BREATH_RED_OUTN CHANNEL_BUTTONS; DoStr BREATH_RED_LED BLINK_MODE_OFF;
    DoInt BREATH_RED_OUTN CHANNEL_RED; DoStr BREATH_RED_LED BLINK_MODE_OFF ].

Definition red_actions : list action :=
  [ DoLog " Red led on";
    DoInt BREATH_RED_OUTN CHANNEL_RED; DoStr BREATH_RED_LED BLINK_MODE_BREATH ].

Definition button_actions : list action :=
  [ DoLog " Button led on";
    DoInt BREATH_RED_OUTN CHANNEL_BUTTONS;
    DoInt BREATH_RED_GRADE BRIGHTNESS_BUTTONS;
    DoStr BREATH_RED_LED BLINK_MODE_ON;
    DoInt BREATH_RED_OUTN CHANNEL_RED;
    DoInt BREATH_RED_GRADE BRIGHTNESS_RED;
    DoStr BREATH_RED_LED BLINK_MODE_ON ].

(** What one call decides, as a function of the two arbitration globals: the
    new set, whether the off sequence goes out, what [last_state] is assigned
    (if anything) and what is written after the priority chain. *)
Record verdict : Type := mkVerdict {
  v_active : Z;
  v_off : list action;
  v_last : option Z;
  v_on : list action
}.

(** The verdict on the set [a] once the bit of the updated source has been set
    ([lit]) or cleared, with [l] the previous [last_state]. *)
Definition resolve (lit : bool) (a l : Z) : verdict :=
  let off := if lit then [] else off_actions in
  if negb lit && (a =? 0) then mkVerdict a off (Some BREATH_SOURCE_NONE) []
  else if truthy (Z.land a BREATH_SOURCE_NOTIFICATION) then
    mkVerdict a off (Some BREATH_SOURCE_NOTIFICATION)
      (if Z.land a BREATH_SOURCE_BUTTONS =? 0 then red_actions else button_actions)
  else if truthy (Z.land a BREATH_SOURCE_BATTERY) then
    mkVerdict a off (Some BREATH_SOURCE_BATTERY)
      (if Z.land a BREATH_SOURCE_BUTTONS =? 0 then red_actions else button_actions)
  else if truthy (Z.land a BREATH_SOURCE_BUTTONS) then
    if l =? BREATH_SOURCE_BUTTONS then mkVerdict a off None []
    else mkVerdict a off (Some BREATH_SOURCE_BUTTONS) button_actions
  else if truthy (Z.land a BREATH_SOURCE_ATTENTION) then
    mkVerdict a off (Some BREATH_SOURCE_ATTENTION) red_actions
  else mkVerdict a off (Some BREATH_SOURCE_NONE) [DoLog " Unknown state"].

Definition arbitrate (event_source : Z) (ls : light_state_t) (a l : Z) : verdict :=
  let lit := Z.land (Z.shiftr (color ls) 16) 0xFF >? 0 in
  resolve lit
    (if lit then Z.lor a event_source else Z.land a (Z.lnot event_source)) l.

(** Carrying a verdict out: the set is assigned, the off sequence goes out,
    [last_state] is assigned, the rest is written. *)
Definition touch_last (v : option Z) (s : state) : state :=
  match v with
  | Some l => set_last_state l s
  | None => s
  end.

Definition settle (v : verdict) (s : state) : state :=
  exec (v_on v)
    (touch_last (v_last v) (exec (v_off v) (set_active_states (v_active v) s))).

Definition last_after (v : verdict) (l : Z) : Z :=
  match v_last v with
  | Some l' => l'
  | None => l
  end.

(** [g_<source> = *state], the first statement of each facade entry. *)
Definition store (src : source) (ls : light_state_t) (s : state) : state :=
  match src with
  | Notification => set_g_notification ls s
  | Battery => set_g_battery ls s
  | Buttons => set_g_buttons ls s
  | Attention => set_g_attention ls s
  end.

Definition decision (src : source) (ls : light_state_t) (s : state) : verdict :=
  arbitrate (source_bit src) ls (active_states s) (last_state s).

(** Whether an update lights its source. *)
Definition lights_up (ls : light_state_t) : bool := derived_brightness ls >? 0.

(** The arbitration globals agree: [last_state] names the winner of the set. *)
Definition settled (s : state) : Prop :=
  last_state s = source_code (winner (active_states s)).

(** A set that holds nothing but the four source bits. *)
Definition in_range (a : Z) : Prop := Z.land a 0x0F = a.

Definition unknown_state_line : string := " Unknown state".

(** The state of a run that never took the last arm of the chain. *)
Definition known (s : state) : Prop :=
  in_range (active_states s) /\ ~ In unknown_state_line (logcat s).

(** The status the spec expects from a call: that of the first write that
    failed, success when none did. *)
Fixpoint first_error (evs : list io_event) : Z :=
  match evs with
  | [] => 0
  | e :: rest =>
      if status_of (ev_result e) =? 0 then first_error rest
      else status_of (ev_result e)
  end.

(** The same globals in front of a sink that answers differently. *)
Definition with_script (script : list io_result) (s : state) : state :=
  mkState (active_states s) (last_state s) (g_attention s) (g_notification s)
    (g_battery s) (g_buttons s) (write_int_already_warned s)
    (write_str_already_warned s) script (issued s) (logcat s).

(** Telling the lines of the two write primitives apart in the log. *)
Fixpoint starts_with (pre line : string) : bool :=
  match pre with
  | EmptyString => true
  | String a pre' =>
      match line with
      | EmptyString => false
      | String b line' => Ascii.eqb a b && starts_with pre' line'
      end
  end.

Definition is_int_message (line : string) : bool :=
  starts_with "write_int failed to open " line.

Definition is_str_message (line : string) : bool :=
  starts_with "write_str failed to open " line.

(** The control points that [write_int] (resp. [write_str]) failed to open,
    in the order of the attempts. *)
Definition int_open_failures (evs : list io_event) : list string :=
  flat_map (fun e => match ev_data e, ev_result e with
                     | PInt _, OpenFails _ => [ev_path e]
                     | _, _ => []
                     end) evs.

Definition str_open_failures (evs : list io_event) : list string :=
  flat_map (fun e => match ev_data e, ev_result e with
                     | PStr _, OpenFails _ => [ev_path e]
                     | _, _ => []
                     end) evs.

(** One flag, the failures it has seen and the lines it let through: only
    the first failure is reported, and the flag is up from then on. *)
Definition warned_once (flag : Z) (fails lines : list string)
  (msg : string -> string) : Prop :=
  lines = map msg (firstn 1 fails) /\ (flag = 0 <-> fails = []).

Definition log_discipline (s : state) : Prop :=
  warned_once (write_int_already_warned s) (int_open_failures (issued s))
    (filter is_int_message (logcat s)) int_open_message
  /\ warned_once (write_str_already_warned s) (str_open_failures (issued s))
       (filter is_str_message (logcat s)) str_open_message.

(** A line the engine logs itself is not mistaken for an open failure. *)
Definition benign (a : action) : bool :=
  match a with
  | DoLog line => negb (is_int_message line) && negb (is_str_message line)
  | _ => true
  end.

(** The arbitration globals of a state: the set, the last applied source and
    the four table entries. *)
Definition arbitration (s : state)
  : Z * Z * (light_state_t * light_state_t * light_state_t * light_state_t) :=
  (active_states s, last_state s,
   (g_notification s, g_battery s, g_buttons s, g_attention s)).

(** The values each control point may receive. *)
Definition allowed_write (w : hw_write) : bool :=
  match w with
  | (path, PInt v) =>
      (String.eqb path LCD_FILE && (0 <=? v) && (v <=? 255))
      || (String.eqb path BREATH_RED_OUTN
          && ((v =? CHANNEL_BUTTONS) || (v =? CHANNEL_RED)))
      || (String.eqb path BREATH_RED_GRADE
          && ((v =? BRIGHTNESS_BUTTONS) || (v =? BRIGHTNESS_RED)))
  | (path, PStr mode) =>
      String.eqb path BREATH_RED_LED
      && (String.eqb mode BLINK_MODE_ON || String.eqb mode BLINK_MODE_BREATH
          || String.eqb mode BLINK_MODE_OFF)
  end.

Definition is_update (c : call) : bool :=
  match c with
  | Update _ _ => true
  | SetBacklight _ => false
  end.

(** A colour packed as the framework does: alpha, red, green, blue. *)
Definition pack_argb (alpha r g b : Z) : Z :=
  alpha * 2 ^ 24 + r * 2 ^ 16 + g * 2 ^ 8 + b.

(** The name under which the framework opens each breathing source. *)
Definition light_id (src : source) : string :=
  match src with
  | Notification => LIGHT_ID_NOTIFICATIONS
  | Battery => LIGHT_ID_BATTERY
  | Buttons => LIGHT_ID_BUTTONS
  | Attention => LIGHT_ID_ATTENTION
  end.

Definition light_ids : list string :=
  [ LIGHT_ID_BACKLIGHT; LIGHT_ID_BUTTONS; LIGHT_ID_BATTERY;
    LIGHT_ID_NOTIFICATIONS; LIGHT_ID_ATTENTION ].

(** No outcome of the script is a failure to open. *)
Definition all_open (script : list io_result) : bool :=
  forallb (fun r => negb (is_open_failure r)) script.

(** A state in which no open has failed so far and none is going to. *)
Definition never_fails_to_open (s : state) : Prop :=
  all_open (pending s) = true
  /\ int_open_failures (issued s) = []
  /\ str_open_failures (issued s) = [].

(** Every source that was updated at all was last updated with a zero red
    byte. *)
Definition all_switched_off (calls : list call) : bool :=
  forallb (fun src => match last_update src calls with
                      | Some ls => derived_brightness ls =? 0
                      | None => true
                      end) priority.

(** * Proofs *)

(** ** The monad *)

Section MonadSteps.
Context {A B C : Type}.

Lemma bind_unfold (m : M A) (k : A -> M B) (s : state) :
  bind m k s = k (fst (m s)) (snd (m s)).
Proof. unfold bind. destruct (m s); reflexivity. Qed.

Lemma bind_bind (m : M A) (f : A -> M B) (g : B -> M C) (s : state) :
  bind (bind m f) g s = bind m (fun x => bind (f x) g) s.
Proof. unfold bind. destruct (m s); reflexivity. Qed.

Lemma bind_ret (a : A) (k : A -> M B) (s : state) : bind (ret a) k s = k a s.
Proof. reflexivity. Qed.

Lemma bind_gets (f : state -> A) (k : A -> M B) (s : state) :
  bind (gets f) k s = k (f s) s.
Proof. reflexivity. Qed.

Lemma bind_if (c : bool) (m1 m2 : M A) (k : A -> M B) (s : state) :
  bind (if c then m1 else m2) k s = if c then bind m1 k s else bind m2 k s.
Proof. destruct c; reflexivity. Qed.
End MonadSteps.

Lemma bind_modify {B : Type} (f : state -> state) (k : unit -> M B) (s : state) :
  bind (modify f) k s = k tt (f s).
Proof. reflexivity. Qed.

(** ** What one write does to each field *)

Ltac crush_write :=
  intros;
  unfold write_int, write_str, ALOGE, sysfs_io, bind, gets, modify, ret,
    set_write_int_already_warned, set_write_str_already_warned, next_result,
    status_of, is_open_failure;
  repeat (cbn in *; match goal with
  | |- context [match pending ?s with _ => _ end] => destruct (pending s)
  | |- context [match ?r with OpenFails _ => _ | Written _ _ => _ end] =>
      destruct r
  | |- context [if ?b then _ else _] => destruct b eqn:?
  end); cbn in *; try reflexivity; try congruence; try lia.

Section WriteInt.
Variables (path : string) (value : Z) (s : state).

Lemma write_int_status : fst (write_int path value s) = status_of (next_result s).
Proof. revert s; crush_write. Qed.

Lemma write_int_active :
  active_states (snd (write_int path value s)) = active_states s.
Proof. revert s; crush_write. Qed.

Lemma write_int_last : last_state (snd (write_int path value s)) = last_state s.
Proof. revert s; crush_write. Qed.

Lemma write_int_attention :
  g_attention (snd (write_int path value s)) = g_attention s.
Proof. revert s; crush_write. Qed.

Lemma write_int_notification :
  g_notification (snd (write_int path value s)) = g_notification s.
Proof. revert s; crush_write. Qed.

Lemma write_int_battery : g_battery (snd (write_int path value s)) = g_battery s.
Proof. revert s; crush_write. Qed.

Lemma write_int_buttons : g_buttons (snd (write_int path value s)) = g_buttons s.
Proof. revert s; crush_write. Qed.

Lemma write_int_pending :
  pending (snd (write_int path value s)) = tl (pending s).
Proof. revert s; crush_write. Qed.

Lemma write_int_issued :
  issued (snd (write_int path value s))
  = issued s ++ [mkEvent path (PInt value) (next_result s)].
Proof. revert s; crush_write. Qed.

Lemma write_int_str_flag :
  write_str_already_warned (snd (write_int path value s))
  = write_str_already_warned s.
Proof. revert s; crush_write. Qed.

Lemma write_int_flag :
  write_int_already_warned (snd (write_int path value s))
  = if is_open_failure (next_result s) && (write_int_already_warned s =? 0)
    then 1 else write_int_already_warned s.
Proof. revert s; crush_write. Qed.

Lemma write_int_logcat :
  logcat (snd (write_int path value s))
  = logcat s ++
    (if is_open_failure (next_result s) && (write_int_already_warned s =? 0)
     then [int_open_message path] else []).
Proof. revert s; crush_write; now rewrite app_nil_r. Qed.
End WriteInt.

Section WriteStr.
Variables (path value : string) (s : state).

Lemma write_str_status : fst (write_str path value s) = status_of (next_result s).
Proof. revert s; crush_write. Qed.

Lemma write_str_active :
  active_states (snd (write_str path value s)) = active_states s.
Proof. revert s; crush_write. Qed.

Lemma write_str_last : last_state (snd (write_str path value s)) = last_state s.
Proof. revert s; crush_write. Qed.

Lemma write_str_attention :
  g_attention (snd (write_str path value s)) = g_attention s.
Proof. revert s; crush_write. Qed.

Lemma write_str_notification :
  g_notification (snd (write_str path value s)) = g_notification s.
Proof. revert s; crush_write. Qed.

Lemma write_str_battery : g_battery (snd (write_str path value s)) = g_battery s.
Proof. revert s; crush_write. Qed.

Lemma write_str_buttons : g_buttons (snd (write_str path value s)) = g_buttons s.
Proof. revert s; crush_write. Qed.

Lemma write_str_pending :
  pending (snd (write_str path value s)) = tl (pending s).
Proof. revert s; crush_write. Qed.

Lemma write_str_issued :
  issued (snd (write_str path value s))
  = issued s ++ [mkEvent path (PStr value) (next_result s)].
Proof. revert s; crush_write. Qed.

Lemma write_str_int_flag :
  write_int_already_warned (snd (write_str path value s))
  = write_int_already_warned s.
Proof. revert s; crush_write. Qed.

Lemma write_str_flag :
  write_str_already_warned (snd (write_str path value s))
  = if is_open_failure (next_result s) && (write_str_already_warned s =? 0)
    then 1 else write_str_already_warned s.
Proof. revert s; crush_write. Qed.

Lemma write_str_logcat :
  logcat (snd (write_str path value s))
  = logcat s ++
    (if is_open_failure (next_result s) && (write_str_already_warned s =? 0)
     then [str_open_message path] else []).
Proof. revert s; crush_write; now rewrite app_nil_r. Qed.
End WriteStr.

(** ** Straight-line runs of sink operations *)

Section ActFrame.
Variables (a : action) (s : state).

Lemma act_active : active_states (act a s) = active_states s.
Proof.
  destruct a; cbn;
    [apply write_int_active | apply write_str_active | reflexivity].
Qed.

Lemma act_last : last_state (act a s) = last_state s.
Proof.
  destruct a; cbn; [apply write_int_last | apply write_str_last | reflexivity].
Qed.

Lemma act_attention : g_attention (act a s) = g_attention s.
Proof.
  destruct a; cbn;
    [apply write_int_attention | apply write_str_attention | reflexivity].
Qed.

Lemma act_notification : g_notification (act a s) = g_notification s.
Proof.
  destruct a; cbn;
    [apply write_int_notification | apply write_str_notification | reflexivity].
Qed.

Lemma act_battery : g_battery (act a s) = g_battery s.
Proof.
  destruct a; cbn;
    [apply write_int_battery | apply write_str_battery | reflexivity].
Qed.

Lemma act_buttons : g_buttons (act a s) = g_buttons s.
Proof.
  destruct a; cbn;
    [apply write_int_buttons | apply write_str_buttons | reflexivity].
Qed.
End ActFrame.

Section ExecFrame.
Variable acts : list action.

Lemma exec_active (s : state) : active_states (exec acts s) = active_states s.
Proof.
  revert s; induction acts as [|a rest IH]; intros s; cbn;
    [reflexivity | now rewrite IH, act_active].
Qed.

Lemma exec_last (s : state) : last_state (exec acts s) = last_state s.
Proof.
  revert s; induction acts as [|a rest IH]; intros s; cbn;
    [reflexivity | now rewrite IH, act_last].
Qed.

Lemma exec_attention (s : state) : g_attention (exec acts s) = g_attention s.
Proof.
  revert s; induction acts as [|a rest IH]; intros s; cbn;
    [reflexivity | now rewrite IH, act_attention].
Qed.

Lemma exec_notification (s : state) :
  g_notification (exec acts s) = g_notification s.
Proof.
  revert s; induction acts as [|a rest IH]; intros s; cbn;
    [reflexivity | now rewrite IH, act_notification].
Qed.

Lemma exec_battery (s : state) : g_battery (exec acts s) = g_battery s.
Proof.
  revert s; induction acts as [|a rest IH]; intros s; cbn;
    [reflexivity | now rewrite IH, act_battery].
Qed.

Lemma exec_buttons (s : state) : g_buttons (exec acts s) = g_buttons s.
Proof.
  revert s; induction acts as [|a rest IH]; intros s; cbn;
    [reflexivity | now rewrite IH, act_buttons].
Qed.

(** The trace only grows, by exactly the writes of the run, in order. *)
Lemma exec_issued (s : state) :
  exists evs, issued (exec acts s) = issued s ++ evs
              /\ writes_of evs = action_writes acts.
Proof.
  revert s; induction acts as [|a rest IH]; intros s; cbn [exec].
  - exists []. now rewrite app_nil_r.
  - destruct (IH (act a s)) as (evs & Hi & Hw). rewrite Hi.
    destruct a as [p v|p v|l]; cbn [act action_writes].
    + rewrite write_int_issued, <- app_assoc. eexists; split; [reflexivity|].
      cbn [app writes_of map ev_path ev_data]. f_equal. exact Hw.
    + rewrite write_str_issued, <- app_assoc. eexists; split; [reflexivity|].
      cbn [app writes_of map ev_path ev_data]. f_equal. exact Hw.
    + exists evs. now split.
Qed.
End ExecFrame.

Create Rewrite HintDb frame.
#[local] Hint Rewrite exec_active exec_last exec_attention exec_notification
  exec_battery exec_buttons : frame.

(** ** Reading a global back after an assignment *)

Section Assignments.
Variables (v : Z) (line : string) (s : state).

Lemma active_set_active : active_states (set_active_states v s) = v.
Proof. reflexivity. Qed.

Lemma active_set_last : active_states (set_last_state v s) = active_states s.
Proof. reflexivity. Qed.

Lemma last_set_last : last_state (set_last_state v s) = v.
Proof. reflexivity. Qed.

Lemma last_set_active : last_state (set_active_states v s) = last_state s.
Proof. reflexivity. Qed.

Lemma ALOGE_active : active_states (snd (ALOGE line s)) = active_states s.
Proof. reflexivity. Qed.

Lemma ALOGE_last : last_state (snd (ALOGE line s)) = last_state s.
Proof. reflexivity. Qed.
End Assignments.

#[local] Hint Rewrite active_set_active active_set_last last_set_last
  last_set_active ALOGE_active ALOGE_last write_int_active write_str_active
  write_int_last write_str_last : frame.

(** ** The engine as a verdict followed by straight-line I/O *)

Lemma bind_ALOGE {B : Type} (line : string) (k : unit -> M B) (s : state) :
  bind (ALOGE line) k s = k tt (act (DoLog line) s).
Proof. reflexivity. Qed.

Lemma bind_write_int {B : Type} (path : string) (value : Z) (k : Z -> M B)
  (s : state) :
  bind (write_int path value) k s
  = k (fst (write_int path value s)) (act (DoInt path value) s).
Proof. apply bind_unfold. Qed.

Lemma bind_write_str {B : Type} (path value : string) (k : Z -> M B)
  (s : state) :
  bind (write_str path value) k s
  = k (fst (write_str path value s)) (act (DoStr path value) s).
Proof. apply bind_unfold. Qed.

#[local] Hint Rewrite act_active act_last : frame.

(** One step of symbolic execution of a monadic body applied to a state. *)
Ltac step :=
  match goal with
  | |- context [bind (bind _ _) _ _] => rewrite bind_bind
  | |- context [bind (ret _) _ _] => rewrite bind_ret
  | |- context [bind (gets _) _ _] => rewrite bind_gets
  | |- context [bind (modify _) _ _] => rewrite bind_modify
  | |- context [bind (if _ then _ else _) _ _] => rewrite bind_if
  | |- context [bind (ALOGE _) _ _] => rewrite bind_ALOGE
  | |- context [bind (write_int _ _) _ _] => rewrite bind_write_int
  | |- context [bind (write_str _ _) _ _] => rewrite bind_write_str
  | _ => progress cbn [negb andb v_on v_off v_last v_active touch_last]
  | _ => progress autorewrite with frame
  | |- context [if ?c then _ else _] => destruct c eqn:?
  end.

Lemma set_breath_light_locked_settle (event_source : Z) (ls : light_state_t)
  (s : state) :
  set_breath_light_locked event_source ls s
  = (0, settle (arbitrate event_source ls (active_states s) (last_state s)) s).
Proof.
  unfold set_breath_light_locked, arbitrate, resolve, settle.
  repeat step.
  all: unfold truthy in *;
    repeat match goal with
    | H : (?x =? 0) = _, H' : negb (?x =? 0) = _ |- _ => rewrite H in H'
    end; try discriminate.
  all: unfold ret, red_actions, button_actions, off_actions; cbn [exec act].
  all: reflexivity.
Qed.

(** ** What a settled verdict leaves behind *)

Section Settle.
Variables (v : verdict) (s : state).

Lemma settle_active : active_states (settle v s) = v_active v.
Proof.
  unfold settle. destruct (v_last v); cbn [touch_last];
    now autorewrite with frame.
Qed.

Lemma settle_last : last_state (settle v s) = last_after v (last_state s).
Proof.
  unfold settle, last_after.
  destruct (v_last v); cbn [touch_last]; now autorewrite with frame.
Qed.

Lemma settle_table (src : source) :
  table_entry src (settle v s) = table_entry src s.
Proof.
  unfold settle.
  destruct src, (v_last v); cbn [touch_last table_entry];
    rewrite ?exec_notification, ?exec_battery, ?exec_buttons, ?exec_attention;
    cbn [set_last_state g_notification g_battery g_buttons g_attention];
    rewrite ?exec_notification, ?exec_battery, ?exec_buttons, ?exec_attention;
    reflexivity.
Qed.

Lemma settle_issued :
  exists evs, issued (settle v s) = issued s ++ evs
              /\ writes_of evs = action_writes (v_off v) ++ action_writes (v_on v).
Proof.
  unfold settle.
  destruct (exec_issued (v_off v) (set_active_states (v_active v) s))
    as (e1 & H1 & W1).
  destruct (exec_issued (v_on v)
              (touch_last (v_last v)
                 (exec (v_off v) (set_active_states (v_active v) s))))
    as (e2 & H2 & W2).
  exists (e1 ++ e2). split.
  - rewrite H2. destruct (v_last v); cbn [touch_last set_last_state issued];
      rewrite H1; cbn [set_active_states issued]; now rewrite app_assoc.
  - unfold writes_of in *. now rewrite map_app, W1, W2.
Qed.
End Settle.

Lemma skipn_all_app {A : Type} (xs ys : list A) :
  skipn (List.length xs) (xs ++ ys) = ys.
Proof. induction xs as [|x xs IH]; cbn; [reflexivity | exact IH]. Qed.

(** ** The facade *)

Lemma update_settle (src : source) (ls : light_state_t) (s : state) :
  update src ls s = (0, settle (decision src ls s) (store src ls s)).
Proof.
  unfold decision.
  destruct src; cbn [update store source_bit];
    unfold set_light_notifications, set_light_battery, set_light_buttons,
      set_light_attention;
    rewrite bind_modify, bind_gets, bind_unfold, set_breath_light_locked_settle;
    reflexivity.
Qed.

Lemma update_status (src : source) (ls : light_state_t) (s : state) :
  fst (update src ls s) = 0.
Proof. now rewrite update_settle. Qed.

Lemma update_active (src : source) (ls : light_state_t) (s : state) :
  active_states (snd (update src ls s)) = v_active (decision src ls s).
Proof. rewrite update_settle. cbn [snd]. apply settle_active. Qed.

Lemma update_last (src : source) (ls : light_state_t) (s : state) :
  last_state (snd (update src ls s))
  = last_after (decision src ls s) (last_state s).
Proof.
  rewrite update_settle. cbn [snd]. rewrite settle_last.
  destruct src; reflexivity.
Qed.

Lemma update_new_writes (src : source) (ls : light_state_t) (s : state) :
  new_writes (update src ls) s
  = action_writes (v_off (decision src ls s))
    ++ action_writes (v_on (decision src ls s)).
Proof.
  unfold new_writes, new_events. rewrite update_settle. cbn [snd].
  destruct (settle_issued (decision src ls s) (store src ls s)) as (evs & Hi & Hw).
  rewrite Hi.
  replace (issued (store src ls s)) with (issued s) by (destruct src; reflexivity).
  now rewrite skipn_all_app.
Qed.

(** ** Bits of the active set *)

Lemma truthy_lor (x y : Z) : truthy (Z.lor x y) = truthy x || truthy y.
Proof.
  unfold truthy.
  destruct (x =? 0) eqn:Hx, (y =? 0) eqn:Hy, (Z.lor x y =? 0) eqn:Hxy;
    cbn; try reflexivity; exfalso;
    rewrite ?Z.eqb_eq, ?Z.eqb_neq in *;
    first [ apply Hxy, Z.lor_eq_0_iff; now split
          | apply Z.lor_eq_0_iff in Hxy; destruct Hxy; contradiction ].
Qed.

Lemma bit_set_lor (a : Z) (src t : source) :
  bit_set (Z.lor a (source_bit src)) t = source_eqb src t || bit_set a t.
Proof.
  unfold bit_set. rewrite Z.land_lor_distr_l, truthy_lor, orb_comm.
  destruct src, t; reflexivity.
Qed.

Lemma bit_set_clear (a : Z) (src t : source) :
  bit_set (Z.land a (Z.lnot (source_bit src))) t
  = negb (source_eqb src t) && bit_set a t.
Proof.
  unfold bit_set. rewrite <- Z.land_assoc.
  destruct src, t; cbn [source_eqb negb andb];
    first [ reflexivity | now rewrite Z.land_0_r ].
Qed.

Lemma bit_set_zero (t : source) : bit_set 0 t = false.
Proof. destruct t; reflexivity. Qed.

(** The red byte as the code extracts it is the red byte of the spec. *)
Lemma red_byte_spec (ls : light_state_t) :
  Z.land (Z.shiftr (color ls) 16) 0xFF = derived_brightness ls.
Proof.
  unfold derived_brightness.
  rewrite Z.shiftr_div_pow2 by lia.
  change 0xFF with (Z.ones 8). rewrite Z.land_ones by lia. reflexivity.
Qed.

Lemma decision_resolve (src : source) (ls : light_state_t) (s : state) :
  decision src ls s
  = resolve (lights_up ls)
      (if lights_up ls then Z.lor (active_states s) (source_bit src)
       else Z.land (active_states s) (Z.lnot (source_bit src)))
      (last_state s).
Proof. unfold decision, arbitrate, lights_up. now rewrite red_byte_spec. Qed.

Section Resolve.
Variables (lit : bool) (a l : Z).

Lemma resolve_active : v_active (resolve lit a l) = a.
Proof.
  unfold resolve.
  repeat match goal with
  | |- context [if ?c then _ else _] => destruct c
  end; reflexivity.
Qed.

Lemma resolve_off :
  action_writes (v_off (resolve lit a l)) = if lit then [] else off_sequence.
Proof.
  unfold resolve.
  repeat match goal with
  | |- context [if ?c then _ else _] => destruct c
  end; reflexivity.
Qed.

(** [last_state] ends up naming the highest-priority source of the set. *)
Lemma resolve_last : last_after (resolve lit a l) l = source_code (winner a).
Proof.
  unfold resolve, winner, priority, bit_set, last_after.
  cbn [find source_bit].
  destruct (negb lit && (a =? 0)) eqn:Hempty.
  - apply andb_prop in Hempty. destruct Hempty as [_ Ha].
    apply Z.eqb_eq in Ha. subst a. reflexivity.
  - destruct (truthy (Z.land a BREATH_SOURCE_NOTIFICATION)); [reflexivity|].
    destruct (truthy (Z.land a BREATH_SOURCE_BATTERY)); [reflexivity|].
    destruct (truthy (Z.land a BREATH_SOURCE_BUTTONS)).
    + destruct (l =? BREATH_SOURCE_BUTTONS) eqn:Hl; [|reflexivity].
      apply Z.eqb_eq in Hl. exact Hl.
    + destruct (truthy (Z.land a BREATH_SOURCE_ATTENTION)); reflexivity.
Qed.

Lemma bit_set_buttons :
  (Z.land a BREATH_SOURCE_BUTTONS =? 0) = negb (bit_set a Buttons).
Proof. unfold bit_set, truthy. now rewrite negb_involutive. Qed.

(** What goes out after the priority chain, by winner. *)
Lemma resolve_on :
  action_writes (v_on (resolve lit a l))
  = match winner a with
    | None => []
    | Some Buttons =>
        if l =? BREATH_SOURCE_BUTTONS then [] else buttons_on_sequence
    | Some _ =>
        if bit_set a Buttons then buttons_on_sequence else breathing_sequence
    end.
Proof.
  unfold resolve, winner, priority. cbn [find].
  rewrite bit_set_buttons. unfold bit_set. cbn [source_bit].
  destruct (negb lit && (a =? 0)) eqn:Hempty.
  - apply andb_prop in Hempty. destruct Hempty as [_ Ha].
    apply Z.eqb_eq in Ha. subst a. reflexivity.
  - destruct (truthy (Z.land a BREATH_SOURCE_NOTIFICATION));
      [destruct (truthy (Z.land a BREATH_SOURCE_BUTTONS)); reflexivity|].
    destruct (truthy (Z.land a BREATH_SOURCE_BATTERY));
      [destruct (truthy (Z.land a BREATH_SOURCE_BUTTONS)); reflexivity|].
    destruct (truthy (Z.land a BREATH_SOURCE_BUTTONS)).
    + destruct (l =? BREATH_SOURCE_BUTTONS); reflexivity.
    + destruct (truthy (Z.land a BREATH_SOURCE_ATTENTION)); reflexivity.
Qed.
End Resolve.

(** ** One call, seen from the arbitration state *)

Lemma update_active_spec (src : source) (ls : light_state_t) (s : state) :
  active_states (snd (update src ls s))
  = if lights_up ls then Z.lor (active_states s) (source_bit src)
    else Z.land (active_states s) (Z.lnot (source_bit src)).
Proof. now rewrite update_active, decision_resolve, resolve_active. Qed.

Lemma update_bit (src t : source) (ls : light_state_t) (s : state) :
  bit_set (active_states (snd (update src ls s))) t
  = if source_eqb src t then lights_up ls else bit_set (active_states s) t.
Proof.
  rewrite update_active_spec.
  destruct (lights_up ls); [rewrite bit_set_lor | rewrite bit_set_clear];
    destruct (source_eqb src t); reflexivity.
Qed.

Lemma update_winner (src : source) (ls : light_state_t) (s : state) :
  last_state (snd (update src ls s))
  = source_code (winner (active_states (snd (update src ls s)))).
Proof.
  rewrite update_last, update_active, decision_resolve, resolve_active.
  apply resolve_last.
Qed.

Lemma update_table (src t : source) (ls : light_state_t) (s : state) :
  table_entry t (snd (update src ls s))
  = if source_eqb src t then ls else table_entry t s.
Proof.
  rewrite update_settle. cbn [snd]. rewrite settle_table.
  destruct src, t; reflexivity.
Qed.

Lemma update_writes (src : source) (ls : light_state_t) (s : state) :
  new_writes (update src ls) s
  = (if lights_up ls then [] else off_sequence)
    ++ match winner (active_states (snd (update src ls s))) with
       | None => []
       | Some Buttons =>
           if last_state s =? BREATH_SOURCE_BUTTONS then []
           else buttons_on_sequence
       | Some _ =>
           if bit_set (active_states (snd (update src ls s))) Buttons
           then buttons_on_sequence else breathing_sequence
       end.
Proof.
  rewrite update_new_writes, update_active, decision_resolve, resolve_active.
  now rewrite resolve_off, resolve_on.
Qed.

Section Backlight.
Variables (ls : light_state_t) (s : state).

Lemma backlight_state :
  snd (set_light_backlight ls s) = act (DoInt LCD_FILE (rgb_to_brightness ls)) s.
Proof. unfold set_light_backlight. now rewrite bind_write_int. Qed.

Lemma backlight_status :
  fst (set_light_backlight ls s) = status_of (next_result s).
Proof.
  unfold set_light_backlight. rewrite bind_write_int. cbn [ret fst].
  apply write_int_status.
Qed.

Lemma backlight_active :
  active_states (snd (set_light_backlight ls s)) = active_states s.
Proof. rewrite backlight_state. apply act_active. Qed.

Lemma backlight_last :
  last_state (snd (set_light_backlight ls s)) = last_state s.
Proof. rewrite backlight_state. apply act_last. Qed.

Lemma backlight_table (t : source) :
  table_entry t (snd (set_light_backlight ls s)) = table_entry t s.
Proof.
  rewrite backlight_state.
  destruct t; cbn [table_entry];
    [apply act_notification | apply act_battery | apply act_buttons
    | apply act_attention].
Qed.
End Backlight.

(** ** Runs of calls *)

Lemma winner_set (a : Z) (w : source) : winner a = Some w -> bit_set a w = true.
Proof. unfold winner. intros H. apply find_some in H. apply H. Qed.

Lemma perform_settled (c : call) (s : state) :
  settled s -> settled (snd (perform c s)).
Proof.
  unfold settled. destruct c as [src ls|ls]; cbn [perform]; intros H.
  - apply update_winner.
  - now rewrite backlight_last, backlight_active.
Qed.

Lemma run_settled (calls : list call) (s : state) :
  settled s -> settled (run calls s).
Proof.
  revert s. induction calls as [|c rest IH]; intros s H; cbn [run].
  - exact H.
  - apply IH, perform_settled, H.
Qed.

Lemma run_bit (calls : list call) (s : state) (t : source) :
  bit_set (active_states (run calls s)) t
  = match last_update t calls with
    | Some ls => lights_up ls
    | None => bit_set (active_states s) t
    end.
Proof.
  revert s. induction calls as [|c rest IH]; intros s; cbn [run last_update].
  - reflexivity.
  - rewrite IH. destruct (last_update t rest); [reflexivity|].
    destruct c as [src ls|ls]; cbn [perform].
    + rewrite update_bit. destruct (source_eqb src t); reflexivity.
    + now rewrite backlight_active.
Qed.

Lemma run_table (calls : list call) (s : state) (t : source) :
  table_entry t (run calls s)
  = match last_update t calls with
    | Some ls => ls
    | None => table_entry t s
    end.
Proof.
  revert s. induction calls as [|c rest IH]; intros s; cbn [run last_update].
  - reflexivity.
  - rewrite IH. destruct (last_update t rest); [reflexivity|].
    destruct c as [src ls|ls]; cbn [perform].
    + rewrite update_table. destruct (source_eqb src t); reflexivity.
    + now rewrite backlight_table.
Qed.

(** ** The set never leaves the four source bits *)

Lemma source_bit_in_range (src : source) : in_range (source_bit src).
Proof. destruct src; reflexivity. Qed.

Lemma source_bit_nonzero (src : source) : source_bit src <> 0.
Proof. destruct src; discriminate. Qed.

Lemma in_range_lor (a b : Z) : in_range a -> in_range b -> in_range (Z.lor a b).
Proof.
  unfold in_range. intros Ha Hb. now rewrite Z.land_lor_distr_l, Ha, Hb.
Qed.

Lemma in_range_land (a b : Z) : in_range a -> in_range (Z.land a b).
Proof.
  unfold in_range. intros Ha.
  rewrite <- Z.land_assoc, (Z.land_comm b), Z.land_assoc, Ha. reflexivity.
Qed.

Lemma truthy_false (z : Z) : truthy z = false -> z = 0.
Proof. unfold truthy. intros H. apply negb_false_iff, Z.eqb_eq in H. exact H. Qed.

(** A set within range with none of the four bits is the empty set. *)
Lemma in_range_no_bits (a : Z) :
  in_range a -> (forall t, bit_set a t = false) -> a = 0.
Proof.
  unfold in_range, bit_set. intros Ha Hb.
  pose proof (truthy_false _ (Hb Notification)) as H1.
  pose proof (truthy_false _ (Hb Battery)) as H2.
  pose proof (truthy_false _ (Hb Buttons)) as H4.
  pose proof (truthy_false _ (Hb Attention)) as H8.
  cbn [source_bit] in *.
  rewrite <- Ha.
  change 0x0F with (Z.lor (Z.lor (Z.lor BREATH_SOURCE_NOTIFICATION
                                        BREATH_SOURCE_BATTERY)
                                 BREATH_SOURCE_BUTTONS)
                          BREATH_SOURCE_ATTENTION).
  rewrite !Z.land_lor_distr_r, H1, H2, H4, H8. reflexivity.
Qed.

Lemma update_in_range (src : source) (ls : light_state_t) (s : state) :
  in_range (active_states s) -> in_range (active_states (snd (update src ls s))).
Proof.
  intros H. rewrite update_active_spec. destruct (lights_up ls).
  - apply in_range_lor; [exact H | apply source_bit_in_range].
  - apply in_range_land, H.
Qed.

Lemma winner_none (a : Z) : winner a = None -> forall t, bit_set a t = false.
Proof.
  unfold winner, priority. cbn [find]. intros H t.
  destruct (bit_set a Notification) eqn:H1; [discriminate|].
  destruct (bit_set a Battery) eqn:H2; [discriminate|].
  destruct (bit_set a Buttons) eqn:H4; [discriminate|].
  destruct (bit_set a Attention) eqn:H8; [discriminate|].
  destruct t; assumption.
Qed.

(** In range, a non-empty set has a winner. *)
Lemma winner_in_range (a : Z) : in_range a -> a <> 0 -> winner a <> None.
Proof.
  intros Ha Hne Hw. apply Hne, in_range_no_bits; [exact Ha|].
  apply winner_none, Hw.
Qed.

(** After a lit update the updated source is in the set, so someone wins. *)
Lemma winner_after_lit (a : Z) (src : source) :
  winner (Z.lor a (source_bit src)) <> None.
Proof.
  intros Hw. pose proof (winner_none _ Hw src) as H.
  rewrite bit_set_lor in H. destruct src; discriminate.
Qed.

(** ** What reaches the log *)

Lemma act_logcat_in (line : string) (a : action) (s : state) :
  In line (logcat (act a s)) ->
  In line (logcat s) \/ a = DoLog line
  \/ (exists p, line = int_open_message p)
  \/ (exists p, line = str_open_message p).
Proof.
  destruct a as [p v|p v|l]; cbn [act].
  - rewrite write_int_logcat. intros H. apply in_app_or in H.
    destruct H as [H|H]; [now left|]. right; right; left.
    destruct (is_open_failure (next_result s) && (write_int_already_warned s =? 0));
      [|destruct H]. destruct H as [H|[]]. now exists p.
  - rewrite write_str_logcat. intros H. apply in_app_or in H.
    destruct H as [H|H]; [now left|]. right; right; right.
    destruct (is_open_failure (next_result s) && (write_str_already_warned s =? 0));
      [|destruct H]. destruct H as [H|[]]. now exists p.
  - cbn. intros H. apply in_app_or in H. destruct H as [H|[H|[]]].
    + now left.
    + right; left. now subst.
Qed.

Lemma exec_logcat_in (line : string) (acts : list action) (s : state) :
  In line (logcat (exec acts s)) ->
  In line (logcat s) \/ In (DoLog line) acts
  \/ (exists p, line = int_open_message p)
  \/ (exists p, line = str_open_message p).
Proof.
  revert s. induction acts as [|a rest IH]; intros s; cbn [exec].
  - now left.
  - intros H. apply IH in H. destruct H as [H|[H|H]].
    + apply act_logcat_in in H. destruct H as [H|[H|H]].
      * now left.
      * right; left. left. exact H.
      * right; right. exact H.
    + right; left. right. exact H.
    + right; right. exact H.
Qed.

Lemma unknown_not_open_message (p : string) :
  unknown_state_line <> int_open_message p
  /\ unknown_state_line <> str_open_message p.
Proof. split; discriminate. Qed.

Lemma exec_unknown (acts : list action) (s : state) :
  In unknown_state_line (logcat (exec acts s)) ->
  In unknown_state_line (logcat s) \/ In (DoLog unknown_state_line) acts.
Proof.
  intros H. apply exec_logcat_in in H.
  destruct H as [H|[H|[[p H]|[p H]]]]; [now left | now right | |];
    exfalso; now apply (unknown_not_open_message p).
Qed.

(** The last arm of the chain is the only one that logs the line, and it is
    taken exactly when a non-empty set has no winner. *)
Lemma resolve_unknown (lit : bool) (a l : Z) :
  In (DoLog unknown_state_line) (v_off (resolve lit a l) ++ v_on (resolve lit a l)) ->
  winner a = None /\ (lit = true \/ a <> 0).
Proof.
  unfold resolve, winner, priority, bit_set. cbn [find source_bit].
  destruct (negb lit && (a =? 0)) eqn:Hempty.
  - cbn [v_off v_on]. rewrite app_nil_r. destruct lit; [discriminate Hempty|].
    cbn. intuition discriminate.
  - assert (Hgo : lit = true \/ a <> 0).
    { destruct lit; [now left|]. right. cbn in Hempty.
      now apply Z.eqb_neq. }
    repeat match goal with
    | |- context [if ?c then _ else _] => destruct c
    end; cbn; try (intuition discriminate).
Qed.

Lemma touch_last_logcat (v : option Z) (s : state) :
  logcat (touch_last v s) = logcat s.
Proof. destruct v; reflexivity. Qed.

Lemma store_logcat (src : source) (ls : light_state_t) (s : state) :
  logcat (store src ls s) = logcat s.
Proof. destruct src; reflexivity. Qed.

Lemma update_unknown (src : source) (ls : light_state_t) (s : state) :
  In unknown_state_line (logcat (snd (update src ls s))) ->
  In unknown_state_line (logcat s)
  \/ In (DoLog unknown_state_line)
       (v_off (decision src ls s) ++ v_on (decision src ls s)).
Proof.
  rewrite update_settle. cbn [snd]. unfold settle. intros H.
  apply exec_unknown in H. destruct H as [H|H].
  - rewrite touch_last_logcat in H. apply exec_unknown in H.
    destruct H as [H|H].
    + left. cbn [set_active_states logcat] in H. now rewrite store_logcat in H.
    + right. apply in_or_app. left. exact H.
  - right. apply in_or_app. right. exact H.
Qed.

Lemma update_known (src : source) (ls : light_state_t) (s : state) :
  known s -> known (snd (update src ls s)).
Proof.
  intros [Hr Hl]. split; [now apply update_in_range|].
  intros H. apply update_unknown in H. destruct H as [H|H]; [now apply Hl|].
  rewrite decision_resolve in H. apply resolve_unknown in H.
  destruct H as [Hw Hgo]. destruct (lights_up ls).
  - now apply winner_after_lit in Hw.
  - destruct Hgo as [Hgo|Hgo]; [discriminate|].
    revert Hw. apply winner_in_range; [|exact Hgo]. now apply in_range_land.
Qed.

Lemma backlight_known (ls : light_state_t) (s : state) :
  known s -> known (snd (set_light_backlight ls s)).
Proof.
  intros [Hr Hl]. split; [now rewrite backlight_active|].
  rewrite backlight_state. intros H. apply act_logcat_in in H.
  destruct H as [H|[H|[[p H]|[p H]]]]; [now apply Hl | discriminate | |];
    now apply (unknown_not_open_message p).
Qed.

Lemma run_known (calls : list call) (s : state) : known s -> known (run calls s).
Proof.
  revert s. induction calls as [|c rest IH]; intros s H; cbn [run]; [exact H|].
  apply IH. destruct c as [src ls|ls]; cbn [perform];
    [now apply update_known | now apply backlight_known].
Qed.

Lemma initial_known (script : list io_result) : known (initial_state script).
Proof. split; [reflexivity | intros []]. Qed.

(** ** The backlight average *)

Lemma mask_byte_range (z : Z) : 0 <= Z.land z 0xff <= 255.
Proof.
  change (Z.land z 0xff) with (Z.land z (Z.ones 8)).
  rewrite Z.land_ones by lia.
  change (2 ^ 8) with 256. pose proof (Z.mod_pos_bound z 256). lia.
Qed.

Lemma rgb_to_brightness_spec (ls : light_state_t) :
  rgb_to_brightness ls
  = (Z.land (Z.shiftr (color ls) 16) 0xff
     + Z.land (Z.shiftr (color ls) 8) 0xff
     + Z.land (color ls) 0xff) / 3.
Proof.
  unfold rgb_to_brightness. cbv zeta.
  rewrite !Z.shiftr_land, <- !Z.land_assoc. reflexivity.
Qed.

(** ** The log discipline of the two write primitives *)

Lemma warned_once_step (flag : Z) (fails lines : list string)
  (msg : string -> string) (fail : bool) (p : string) :
  warned_once flag fails lines msg ->
  warned_once (if fail && (flag =? 0) then 1 else flag)
    (fails ++ (if fail then [p] else []))
    (lines ++ (if fail && (flag =? 0) then [msg p] else [])) msg.
Proof.
  unfold warned_once. intros [Hl Hf]. destruct fail; cbn [andb].
  - destruct (flag =? 0) eqn:E.
    + apply Z.eqb_eq in E. apply Hf in E. subst fails lines. cbn.
      split; [reflexivity|]. split; discriminate.
    + apply Z.eqb_neq in E. rewrite app_nil_r.
      destruct fails as [|x rest]; [exfalso; apply E, Hf; reflexivity|].
      split; [exact Hl|]. split; [intros H; contradiction | discriminate].
  - rewrite !app_nil_r. now split.
Qed.

Lemma is_int_message_int (p : string) : is_int_message (int_open_message p) = true.
Proof. reflexivity. Qed.

Lemma is_str_message_str (p : string) : is_str_message (str_open_message p) = true.
Proof. reflexivity. Qed.

Lemma is_str_message_int (p : string) : is_str_message (int_open_message p) = false.
Proof. reflexivity. Qed.

Lemma is_int_message_str (p : string) : is_int_message (str_open_message p) = false.
Proof. reflexivity. Qed.

Lemma filter_snoc_if {A : Type} (f : A -> bool) (c : bool) (x : A) (l : list A) :
  filter f (l ++ (if c then [x] else []))
  = filter f l ++ (if c && f x then [x] else []).
Proof.
  rewrite filter_app. destruct c; cbn; [destruct (f x)|]; reflexivity.
Qed.

Lemma int_open_failures_snoc (evs : list io_event) (p : string) (d : payload)
  (r : io_result) :
  int_open_failures (evs ++ [mkEvent p d r])
  = int_open_failures evs
    ++ (if match d with PInt _ => is_open_failure r | PStr _ => false end
        then [p] else []).
Proof.
  unfold int_open_failures. rewrite flat_map_app. cbn.
  destruct d, r; reflexivity.
Qed.

Lemma str_open_failures_snoc (evs : list io_event) (p : string) (d : payload)
  (r : io_result) :
  str_open_failures (evs ++ [mkEvent p d r])
  = str_open_failures evs
    ++ (if match d with PStr _ => is_open_failure r | PInt _ => false end
        then [p] else []).
Proof.
  unfold str_open_failures. rewrite flat_map_app. cbn.
  destruct d, r; reflexivity.
Qed.

Lemma act_discipline (a : action) (s : state) :
  benign a = true -> log_discipline s -> log_discipline (act a s).
Proof.
  unfold log_discipline. intros Hb [Hi Hs].
  destruct a as [p v|p v|line]; cbn [act].
  - rewrite write_int_flag, write_int_str_flag, write_int_issued,
      write_int_logcat, int_open_failures_snoc, str_open_failures_snoc,
      !filter_snoc_if, is_int_message_int, is_str_message_int,
      andb_true_r, andb_false_r, !app_nil_r.
    split; [apply warned_once_step, Hi | exact Hs].
  - rewrite write_str_flag, write_str_int_flag, write_str_issued,
      write_str_logcat, int_open_failures_snoc, str_open_failures_snoc,
      !filter_snoc_if, is_int_message_str, is_str_message_str,
      andb_true_r, andb_false_r, !app_nil_r.
    split; [exact Hi | apply warned_once_step, Hs].
  - cbn [benign] in Hb. apply andb_prop in Hb. destruct Hb as [Hbi Hbs].
    apply negb_true_iff in Hbi, Hbs.
    cbn [ALOGE modify snd write_int_already_warned write_str_already_warned
         issued logcat].
    rewrite !filter_app. cbn [filter]. rewrite Hbi, Hbs, !app_nil_r.
    now split.
Qed.

Lemma exec_discipline (acts : list action) (s : state) :
  forallb benign acts = true -> log_discipline s -> log_discipline (exec acts s).
Proof.
  revert s. induction acts as [|a rest IH]; intros s Hb Hs; cbn [exec].
  - exact Hs.
  - cbn [forallb] in Hb. apply andb_prop in Hb. destruct Hb as [Ha Hrest].
    apply IH; [exact Hrest | now apply act_discipline].
Qed.

Lemma resolve_benign (lit : bool) (a l : Z) :
  forallb benign (v_off (resolve lit a l)) = true
  /\ forallb benign (v_on (resolve lit a l)) = true.
Proof.
  unfold resolve.
  repeat match goal with
  | |- context [if ?c then _ else _] => destruct c
  end; split; reflexivity.
Qed.

Lemma update_discipline (src : source) (ls : light_state_t) (s : state) :
  log_discipline s -> log_discipline (snd (update src ls s)).
Proof.
  intros H. rewrite update_settle. cbn [snd]. unfold settle.
  rewrite decision_resolve.
  match goal with
  | |- context [resolve ?lit ?a ?l] =>
      destruct (resolve_benign lit a l) as [Hoff Hon];
      generalize dependent (resolve lit a l)
  end.
  intros v Hoff Hon.
  apply exec_discipline; [exact Hon|].
  assert (Hin : log_discipline
                  (exec (v_off v) (set_active_states (v_active v) (store src ls s)))).
  { apply exec_discipline; [exact Hoff|]. destruct src; exact H. }
  destruct (v_last v); exact Hin.
Qed.

Lemma backlight_discipline (ls : light_state_t) (s : state) :
  log_discipline s -> log_discipline (snd (set_light_backlight ls s)).
Proof. intros H. rewrite backlight_state. now apply act_discipline. Qed.

Lemma run_discipline (calls : list call) (s : state) :
  log_discipline s -> log_discipline (run calls s).
Proof.
  revert s. induction calls as [|c rest IH]; intros s H; cbn [run]; [exact H|].
  apply IH. destruct c as [src ls|ls]; cbn [perform];
    [now apply update_discipline | now apply backlight_discipline].
Qed.

Lemma initial_discipline (script : list io_result) :
  log_discipline (initial_state script).
Proof. split; (split; [reflexivity | split; reflexivity]). Qed.

(** * The claims *)

(** C1, as stated, fails: Buttons is lit, then a notification arrives.
    Notification wins the second resolution and [last_state] records it, the
    Buttons bit is still set, and what is written is the six-write buttons-on
    sequence, not the two-write breathing sequence. *)
Lemma notification_over_buttons_writes_buttons_on :
  last_state
    (snd (update Notification (mkLight 0x010000)
            (snd (update Buttons (mkLight 0xFF0000) (initial_state [])))))
  = BREATH_SOURCE_NOTIFICATION
  /\ bit_set
       (active_states
          (snd (update Notification (mkLight 0x010000)
                  (snd (update Buttons (mkLight 0xFF0000) (initial_state []))))))
       Buttons = true
  /\ new_writes (update Notification (mkLight 0x010000))
       (snd (update Buttons (mkLight 0xFF0000) (initial_state [])))
     = buttons_on_sequence
  /\ new_writes (update Notification (mkLight 0x010000))
       (snd (update Buttons (mkLight 0xFF0000) (initial_state [])))
     <> breathing_sequence.
Proof. vm_compute. repeat split; discriminate. Qed.

(** C1, amended.  When the winner of a resolution is Notification, Battery or
    Attention, the call writes the off sequence first if the update carried a
    zero red byte, and then: the two-write breathing sequence (channel 16, mode
    "3") if the Buttons bit is clear in [active_states], the six-write
    buttons-on sequence if it is set. *)
Theorem breathing_sequence_unless_buttons
  (src : source) (ls : light_state_t) (s : state) (w : source) :
  winner (active_states (snd (update src ls s))) = Some w ->
  w <> Buttons ->
  new_writes (update src ls) s
  = (if derived_brightness ls >? 0 then [] else off_sequence)
    ++ (if bit_set (active_states (snd (update src ls s))) Buttons
        then buttons_on_sequence else breathing_sequence).
Proof.
  intros Hw Hb. rewrite update_writes, Hw.
  destruct w; [reflexivity | reflexivity | contradiction | reflexivity].
Qed.

(** A notification arrives while nothing else is lit. *)
Lemma breathing_sequence_unless_buttons_witness :
  new_writes (update Notification (mkLight 0x010000)) (initial_state [])
  = breathing_sequence.
Proof.
  apply (breathing_sequence_unless_buttons Notification (mkLight 0x010000)
           (initial_state []) Notification);
    [vm_compute; reflexivity | discriminate].
Defined.

(** C2, as stated, fails: the battery LED is lit while the channel selector
    cannot be opened ([ENOENT]).  The first write fails with status [-2], and
    the call returns [0]. *)
Lemma battery_update_hides_open_failure :
  first_error
    (new_events (update Battery (mkLight 0x010000)) (initial_state [OpenFails 2]))
  = -2
  /\ fst (update Battery (mkLight 0x010000) (initial_state [OpenFails 2])) = 0.
Proof. vm_compute. split; reflexivity. Qed.

(** C2, amended.  An update of a breathing source returns success whatever
    happens to its writes, and the writes it issues are the same whatever the
    sysfs nodes answer: no failure is returned and none cuts the call short. *)
Theorem update_ignores_write_failures
  (src : source) (ls : light_state_t) (s : state) :
  fst (update src ls s) = 0
  /\ (forall script : list io_result,
         fst (update src ls (with_script script s)) = 0
         /\ new_writes (update src ls) (with_script script s)
            = new_writes (update src ls) s).
Proof.
  split; [apply update_status|]. intros script.
  split; [apply update_status|].
  rewrite !update_writes, !update_active_spec. reflexivity.
Qed.

(** C3.  After any run of calls from the initial state, the bit of every
    source in [active_states] says whether the red byte (bits 16 to 23) of the
    colour of the last update of that source is positive; a source that was
    never updated has its bit clear.  The same byte is the one kept in the
    table entry of the source. *)
Theorem active_bit_tracks_last_update
  (script : list io_result) (calls : list call) (src : source) :
  bit_set (active_states (run calls (initial_state script))) src
  = match last_update src calls with
    | Some ls => derived_brightness ls >? 0
    | None => false
    end
  /\ bit_set (active_states (run calls (initial_state script))) src
     = (derived_brightness (table_entry src (run calls (initial_state script)))
        >? 0).
Proof.
  rewrite run_bit, run_table.
  destruct (last_update src calls) as [ls|].
  - split; reflexivity.
  - split; [apply bit_set_zero|]. rewrite bit_set_zero. destruct src; reflexivity.
Qed.

(** C4.  After every update, [last_state] is the first source of the order
    Notification, Battery, Buttons, Attention whose bit is set in
    [active_states] (None when there is none); in particular it is
    Notification whenever the bits of Notification and Battery are both set,
    whatever the call was and whatever the bits of Buttons and Attention. *)
Theorem priority_selects_winner (src : source) (ls : light_state_t) (s : state) :
  last_state (snd (update src ls s))
  = source_code (winner (active_states (snd (update src ls s))))
  /\ (bit_set (active_states (snd (update src ls s))) Notification = true ->
      bit_set (active_states (snd (update src ls s))) Battery = true ->
      last_state (snd (update src ls s)) = BREATH_SOURCE_NOTIFICATION).
Proof.
  split; [apply update_winner|].
  intros Hn _. rewrite update_winner. unfold winner, priority. cbn [find].
  now rewrite Hn.
Qed.

(** Buttons and Battery are lit, then a notification arrives. *)
Lemma priority_selects_winner_witness :
  last_state
    (snd (update Notification (mkLight 0x010000)
            (run [Update Buttons (mkLight 0xFF0000);
                  Update Battery (mkLight 0x020000)] (initial_state []))))
  = BREATH_SOURCE_NOTIFICATION.
Proof.
  apply (proj2 (priority_selects_winner Notification (mkLight 0x010000)
                  (run [Update Buttons (mkLight 0xFF0000);
                        Update Battery (mkLight 0x020000)] (initial_state []))));
    vm_compute; reflexivity.
Defined.

(** C5.  The code breaks the claim.  Buttons is lit from the initial state
    and is the last applied source; an update of Attention with a zero red
    byte leaves Buttons the winner, yet the call writes the four-write off
    sequence (lines 176-180) before the chain returns early at line 197.  Both
    channels are then off while the Buttons bit is set and [last_state] is
    still Buttons, and a further update of Buttons, lit as before, writes
    nothing: the buttons stay dark.  The sibling arms write their pattern again
    after the same off sequence. *)
Lemma buttons_unchanged_still_writes_off :
  last_state (snd (update Buttons (mkLight 0xFF0000) (initial_state [])))
  = BREATH_SOURCE_BUTTONS
  /\ winner
       (active_states
          (snd (update Attention (mkLight 0)
                  (snd (update Buttons (mkLight 0xFF0000) (initial_state []))))))
     = Some Buttons
  /\ new_writes (update Attention (mkLight 0))
       (snd (update Buttons (mkLight 0xFF0000) (initial_state [])))
     = off_sequence
  /\ new_writes (update Attention (mkLight 0))
       (snd (update Buttons (mkLight 0xFF0000) (initial_state [])))
     <> []
  /\ last_state
       (snd (update Attention (mkLight 0)
               (snd (update Buttons (mkLight 0xFF0000) (initial_state [])))))
     = BREATH_SOURCE_BUTTONS
  /\ new_writes (update Buttons (mkLight 0xFF0000))
       (snd (update Attention (mkLight 0)
               (snd (update Buttons (mkLight 0xFF0000) (initial_state [])))))
     = [].
Proof. vm_compute. repeat split; discriminate. Qed.

(** C6.  When the only source in the set is updated with a zero red byte, the
    set becomes empty, the call writes exactly the off sequence (channel 8,
    mode "2", channel 16, mode "2") and [last_state] becomes None. *)
Theorem sole_source_turn_off (src : source) (ls : light_state_t) (s : state) :
  active_states s = source_bit src ->
  derived_brightness ls = 0 ->
  active_states (snd (update src ls s)) = 0
  /\ new_writes (update src ls) s = off_sequence
  /\ last_state (snd (update src ls s)) = BREATH_SOURCE_NONE.
Proof.
  intros Ha Hb.
  assert (H0 : active_states (snd (update src ls s)) = 0).
  { rewrite update_active_spec. unfold lights_up. rewrite Hb, Ha.
    destruct src; reflexivity. }
  split; [exact H0|]. split.
  - rewrite update_writes, H0. unfold lights_up. rewrite Hb. reflexivity.
  - rewrite update_winner, H0. reflexivity.
Qed.

(** The battery LED breathes alone and is then put out. *)
Lemma sole_source_turn_off_witness :
  new_writes (update Battery (mkLight 0x00010000)) (initial_state [])
  = breathing_sequence
  /\ active_states
       (snd (update Battery (mkLight 0)
               (snd (update Battery (mkLight 0x00010000) (initial_state [])))))
     = 0
  /\ new_writes (update Battery (mkLight 0))
       (snd (update Battery (mkLight 0x00010000) (initial_state [])))
     = off_sequence
  /\ last_state
       (snd (update Battery (mkLight 0)
               (snd (update Battery (mkLight 0x00010000) (initial_state [])))))
     = BREATH_SOURCE_NONE.
Proof.
  split; [vm_compute; reflexivity|].
  apply (sole_source_turn_off Battery (mkLight 0)
           (snd (update Battery (mkLight 0x00010000) (initial_state []))));
    vm_compute; reflexivity.
Defined.

(** C7, as stated, fails: Buttons is lit while neither the channel selector
    nor the grade parameter can be opened.  Both are written through
    [write_int]; the failure on the channel selector is logged, the first
    failure on the grade parameter, which comes right after, is not. *)
Lemma grade_failure_suppressed_by_outn_failure :
  In BREATH_RED_GRADE
    (int_open_failures
       (issued (snd (update Buttons (mkLight 0xFF0000)
                       (initial_state [OpenFails 2; OpenFails 2])))))
  /\ In (int_open_message BREATH_RED_OUTN)
       (logcat (snd (update Buttons (mkLight 0xFF0000)
                       (initial_state [OpenFails 2; OpenFails 2]))))
  /\ ~ In (int_open_message BREATH_RED_GRADE)
         (logcat (snd (update Buttons (mkLight 0xFF0000)
                         (initial_state [OpenFails 2; OpenFails 2])))).
Proof.
  vm_compute. split; [|split].
  - right. left. reflexivity.
  - right. left. reflexivity.
  - intros [H|[H|[]]]; discriminate.
Qed.

(** C7, amended.  Failures to open are logged once per write primitive, not
    once per control point.  Over any run from the initial state the log holds
    at most one line of [write_int], for the first control point (channel
    selector, grade parameter or backlight) it failed to open, and at most one
    line of [write_str], for the first failure on the mode selector; every
    later failure to open through the same primitive is silent, whichever
    control point it concerns. *)
Theorem open_failure_logged_once_per_primitive
  (script : list io_result) (calls : list call) :
  filter is_int_message (logcat (run calls (initial_state script)))
  = map int_open_message
      (firstn 1 (int_open_failures (issued (run calls (initial_state script)))))
  /\ filter is_str_message (logcat (run calls (initial_state script)))
     = map str_open_message
         (firstn 1
            (str_open_failures (issued (run calls (initial_state script))))).
Proof.
  destruct (run_discipline calls (initial_state script)
              (initial_discipline script)) as [[Hi _] [Hs _]].
  split; assumption.
Qed.

(** C8.  Over any run of calls from the initial state, whatever the sysfs
    nodes answer, the last arm of the priority chain is never taken: the line
    [" Unknown state"] never reaches the log. *)
Theorem unknown_state_unreachable (script : list io_result) (calls : list call) :
  ~ In " Unknown state" (logcat (run calls (initial_state script))).
Proof. apply (run_known calls (initial_state script)), initial_known. Qed.

(** C9.  [set_light_backlight] issues one write, to the backlight node, of
    the truncated average of the three colour bytes (the top byte plays no
    part); the value lies between 0 and 255, and [active_states],
    [last_state] and the four table entries are left as they were. *)
Theorem backlight_writes_average (ls : light_state_t) (s : state) :
  new_writes (set_light_backlight ls) s
  = [ (LCD_FILE,
       PInt ((Z.land (Z.shiftr (color ls) 16) 0xff
              + Z.land (Z.shiftr (color ls) 8) 0xff
              + Z.land (color ls) 0xff) / 3)) ]
  /\ 0 <= (Z.land (Z.shiftr (color ls) 16) 0xff
           + Z.land (Z.shiftr (color ls) 8) 0xff
           + Z.land (color ls) 0xff) / 3 <= 255
  /\ active_states (snd (set_light_backlight ls s)) = active_states s
  /\ last_state (snd (set_light_backlight ls s)) = last_state s
  /\ (forall t, table_entry t (snd (set_light_backlight ls s)) = table_entry t s).
Proof.
  split; [|split; [|split; [|split]]].
  - unfold new_writes, new_events.
    rewrite backlight_state. cbn [act]. rewrite write_int_issued, skipn_all_app.
    cbn [writes_of map ev_path ev_data]. now rewrite rgb_to_brightness_spec.
  - pose proof (mask_byte_range (Z.shiftr (color ls) 16)).
    pose proof (mask_byte_range (Z.shiftr (color ls) 8)).
    pose proof (mask_byte_range (color ls)).
    split; [apply Z.div_pos; lia | apply Z.div_le_upper_bound; lia].
  - apply backlight_active.
  - apply backlight_last.
  - intros t. apply backlight_table.
Qed.

(** C10.  After any run of calls from the initial state, an empty
    [active_states] comes with [last_state] None, and [last_state] is either
    None or the code of a source whose bit is set in [active_states]. *)
Theorem last_state_consistent (script : list io_result) (calls : list call) :
  (active_states (run calls (initial_state script)) = 0 ->
   last_state (run calls (initial_state script)) = BREATH_SOURCE_NONE)
  /\ (last_state (run calls (initial_state script)) = BREATH_SOURCE_NONE
      \/ exists src,
           last_state (run calls (initial_state script)) = source_bit src
           /\ bit_set (active_states (run calls (initial_state script))) src
              = true).
Proof.
  assert (H : settled (run calls (initial_state script)))
    by (apply run_settled; reflexivity).
  unfold settled in H. split.
  - intros H0. rewrite H, H0. reflexivity.
  - rewrite H.
    destruct (winner (active_states (run calls (initial_state script))))
      as [w|] eqn:Hw.
    + right. exists w. split; [reflexivity | now apply winner_set].
    + now left.
Qed.

(** The battery LED is lit and then put out again. *)
Lemma last_state_consistent_witness :
  last_state
    (run [Update Battery (mkLight 0x010000); Update Battery (mkLight 0)]
       (initial_state []))
  = BREATH_SOURCE_NONE.
Proof.
  apply (proj1 (last_state_consistent []
                  [Update Battery (mkLight 0x010000); Update Battery (mkLight 0)]));
    vm_compute; reflexivity.
Defined.

(** * Further properties of the code *)

(** ** The arbitration globals under one call *)

Lemma update_arbitration (src : source) (ls : light_state_t) (s : state) :
  arbitration (snd (update src ls s))
  = let a := if lights_up ls then Z.lor (active_states s) (source_bit src)
             else Z.land (active_states s) (Z.lnot (source_bit src)) in
    let entry t := if source_eqb src t then ls else table_entry t s in
    (a, source_code (winner a),
     (entry Notification, entry Battery, entry Buttons, entry Attention)).
Proof.
  unfold arbitration. cbv zeta.
  rewrite update_winner, update_active_spec.
  change (g_notification (snd (update src ls s)))
    with (table_entry Notification (snd (update src ls s))).
  change (g_battery (snd (update src ls s)))
    with (table_entry Battery (snd (update src ls s))).
  change (g_buttons (snd (update src ls s)))
    with (table_entry Buttons (snd (update src ls s))).
  change (g_attention (snd (update src ls s)))
    with (table_entry Attention (snd (update src ls s))).
  now rewrite !update_table.
Qed.

Lemma arbitration_fields (s1 s2 : state) :
  arbitration s1 = arbitration s2 ->
  active_states s1 = active_states s2 /\ last_state s1 = last_state s2
  /\ forall t, table_entry t s1 = table_entry t s2.
Proof.
  unfold arbitration. intros H. injection H as Ha Hl Hn Hb Hu Ht.
  repeat split; try assumption. intros t; destruct t; assumption.
Qed.

Lemma update_arbitration_congr (src : source) (ls : light_state_t)
  (s1 s2 : state) :
  arbitration s1 = arbitration s2 ->
  arbitration (snd (update src ls s1)) = arbitration (snd (update src ls s2)).
Proof.
  intros H. apply arbitration_fields in H. destruct H as (Ha & _ & Ht).
  rewrite !update_arbitration. cbv zeta. now rewrite Ha, !Ht.
Qed.

Lemma backlight_arbitration (ls : light_state_t) (s : state) :
  arbitration (snd (set_light_backlight ls s)) = arbitration s.
Proof.
  unfold arbitration. rewrite backlight_active, backlight_last.
  pose proof (backlight_table ls s) as Ht.
  pose proof (Ht Notification) as Hn. pose proof (Ht Battery) as Hb.
  pose proof (Ht Buttons) as Hu. pose proof (Ht Attention) as Ha.
  cbn [table_entry] in Hn, Hb, Hu, Ha. now rewrite Hn, Hb, Hu, Ha.
Qed.

Lemma perform_arbitration_congr (c : call) (s1 s2 : state) :
  arbitration s1 = arbitration s2 ->
  arbitration (snd (perform c s1)) = arbitration (snd (perform c s2)).
Proof.
  intros H. destruct c as [src ls|ls]; cbn [perform].
  - now apply update_arbitration_congr.
  - now rewrite !backlight_arbitration.
Qed.

Lemma run_arbitration_congr (calls : list call) (s1 s2 : state) :
  arbitration s1 = arbitration s2 ->
  arbitration (run calls s1) = arbitration (run calls s2).
Proof.
  revert s1 s2. induction calls as [|c rest IH]; intros s1 s2 H; cbn [run].
  - exact H.
  - apply IH, perform_arbitration_congr, H.
Qed.

Lemma update_writes_congr (src : source) (ls : light_state_t) (s1 s2 : state) :
  arbitration s1 = arbitration s2 ->
  new_writes (update src ls) s1 = new_writes (update src ls) s2.
Proof.
  intros H. apply arbitration_fields in H. destruct H as (Ha & Hl & _).
  rewrite !update_writes, !update_active_spec. now rewrite Ha, Hl.
Qed.

(** The trace after a call is the trace before it followed by the new events. *)
Lemma update_issued (src : source) (ls : light_state_t) (s : state) :
  issued (snd (update src ls s)) = issued s ++ new_events (update src ls) s.
Proof.
  unfold new_events. rewrite update_settle. cbn [snd].
  destruct (settle_issued (decision src ls s) (store src ls s)) as (evs & Hi & _).
  rewrite Hi.
  replace (issued (store src ls s)) with (issued s) by (destruct src; reflexivity).
  now rewrite skipn_all_app.
Qed.

Lemma backlight_issued (ls : light_state_t) (s : state) :
  issued (snd (set_light_backlight ls s))
  = issued s ++ [mkEvent LCD_FILE (PInt (rgb_to_brightness ls)) (next_result s)].
Proof. rewrite backlight_state. cbn [act]. apply write_int_issued. Qed.

Lemma writes_of_app (xs ys : list io_event) :
  writes_of (xs ++ ys) = writes_of xs ++ writes_of ys.
Proof. unfold writes_of. apply map_app. Qed.

Lemma perform_writes_congr (c : call) (s1 s2 : state) :
  arbitration s1 = arbitration s2 ->
  writes_of (issued s1) = writes_of (issued s2) ->
  writes_of (issued (snd (perform c s1)))
  = writes_of (issued (snd (perform c s2))).
Proof.
  intros Ha Hw. destruct c as [src ls|ls]; cbn [perform].
  - rewrite !update_issued, !writes_of_app, Hw. f_equal.
    now apply (update_writes_congr src ls).
  - rewrite !backlight_issued, !writes_of_app, Hw. reflexivity.
Qed.

Lemma run_writes_congr (calls : list call) (s1 s2 : state) :
  arbitration s1 = arbitration s2 ->
  writes_of (issued s1) = writes_of (issued s2) ->
  writes_of (issued (run calls s1)) = writes_of (issued (run calls s2)).
Proof.
  revert s1 s2. induction calls as [|c rest IH]; intros s1 s2 Ha Hw; cbn [run].
  - exact Hw.
  - apply IH;
      [now apply perform_arbitration_congr | now apply perform_writes_congr].
Qed.

(** X1.  Repeating an update changes nothing in the arbitration globals: the
    set, [last_state] and the four table entries after the second call are
    those after the first. *)
Theorem update_twice_same_arbitration
  (src : source) (ls : light_state_t) (s : state) :
  arbitration (snd (update src ls (snd (update src ls s))))
  = arbitration (snd (update src ls s)).
Proof.
  rewrite (update_arbitration src ls (snd (update src ls s))). cbv zeta.
  rewrite update_active_spec, !update_table, update_arbitration. cbv zeta.
  destruct (lights_up ls).
  - rewrite <- Z.lor_assoc, Z.lor_diag.
    destruct src; reflexivity.
  - rewrite <- Z.land_assoc, Z.land_diag.
    destruct src; reflexivity.
Qed.

(** X2.  Updates of two different sources commute on the arbitration globals:
    whichever comes first, the set, [last_state] and the table entries end up
    the same. *)
Theorem updates_of_distinct_sources_commute
  (src1 src2 : source) (ls1 ls2 : light_state_t) (s : state) :
  src1 <> src2 ->
  arbitration (snd (update src2 ls2 (snd (update src1 ls1 s))))
  = arbitration (snd (update src1 ls1 (snd (update src2 ls2 s)))).
Proof.
  intros Hne.
  rewrite (update_arbitration src2 ls2 (snd (update src1 ls1 s))).
  rewrite (update_arbitration src1 ls1 (snd (update src2 ls2 s))). cbv zeta.
  rewrite !update_active_spec, !update_table.
  assert (Ha :
    (if lights_up ls2
     then Z.lor (if lights_up ls1
                 then Z.lor (active_states s) (source_bit src1)
                 else Z.land (active_states s) (Z.lnot (source_bit src1)))
            (source_bit src2)
     else Z.land (if lights_up ls1
                  then Z.lor (active_states s) (source_bit src1)
                  else Z.land (active_states s) (Z.lnot (source_bit src1)))
            (Z.lnot (source_bit src2)))
    = (if lights_up ls1
       then Z.lor (if lights_up ls2
                   then Z.lor (active_states s) (source_bit src2)
                   else Z.land (active_states s) (Z.lnot (source_bit src2)))
              (source_bit src1)
       else Z.land (if lights_up ls2
                    then Z.lor (active_states s) (source_bit src2)
                    else Z.land (active_states s) (Z.lnot (source_bit src2)))
              (Z.lnot (source_bit src1)))).
  { destruct (lights_up ls1), (lights_up ls2).
    - rewrite <- !Z.lor_assoc. f_equal. apply Z.lor_comm.
    - rewrite Z.land_lor_distr_l. f_equal.
      destruct src1, src2; try reflexivity; contradiction.
    - rewrite Z.land_lor_distr_l. f_equal.
      destruct src1, src2; try reflexivity; contradiction.
    - rewrite <- !Z.land_assoc. f_equal. apply Z.land_comm. }
  rewrite Ha.
  destruct src1, src2; try contradiction; reflexivity.
Qed.

(** The battery and the notification LED are lit in either order. *)
Lemma updates_of_distinct_sources_commute_witness :
  arbitration
    (snd (update Notification (mkLight 0x010000)
            (snd (update Battery (mkLight 0x020000) (initial_state [])))))
  = arbitration
      (snd (update Battery (mkLight 0x020000)
              (snd (update Notification (mkLight 0x010000) (initial_state []))))).
Proof.
  apply (updates_of_distinct_sources_commute Battery Notification
           (mkLight 0x020000) (mkLight 0x010000) (initial_state [])).
  discriminate.
Defined.

(** X3.  Of the colour of an update only the question whether its red byte
    is zero matters: two colours that agree on it give the same status, the
    same writes, the same set and the same [last_state]. *)
Theorem update_depends_on_red_byte_only
  (src : source) (ls1 ls2 : light_state_t) (s : state) :
  (derived_brightness ls1 >? 0) = (derived_brightness ls2 >? 0) ->
  fst (update src ls1 s) = fst (update src ls2 s)
  /\ new_writes (update src ls1) s = new_writes (update src ls2) s
  /\ active_states (snd (update src ls1 s))
     = active_states (snd (update src ls2 s))
  /\ last_state (snd (update src ls1 s)) = last_state (snd (update src ls2 s)).
Proof.
  intros H. fold (lights_up ls1) in H. fold (lights_up ls2) in H.
  assert (Ha : active_states (snd (update src ls1 s))
               = active_states (snd (update src ls2 s)))
    by (rewrite !update_active_spec, H; reflexivity).
  split; [now rewrite !update_status|]. split; [|split].
  - rewrite !update_writes, Ha, H. reflexivity.
  - exact Ha.
  - rewrite !update_winner, Ha. reflexivity.
Qed.

(** Dim red and full white light the buttons alike. *)
Lemma update_depends_on_red_byte_only_witness :
  new_writes (update Buttons (mkLight 0x010000)) (initial_state [])
  = new_writes (update Buttons (mkLight 0xFFFFFF)) (initial_state []).
Proof.
  apply (update_depends_on_red_byte_only Buttons (mkLight 0x010000)
           (mkLight 0xFFFFFF) (initial_state [])).
  vm_compute; reflexivity.
Defined.

(** X4.  Backlight calls never disturb the breathing LED bookkeeping: the
    arbitration globals after a run are those after the same run with the
    backlight calls left out. *)
Theorem backlight_calls_leave_arbitration
  (calls : list call) (s : state) :
  arbitration (run calls s) = arbitration (run (filter is_update calls) s).
Proof.
  revert s. induction calls as [|c rest IH]; intros s; cbn [run filter].
  - reflexivity.
  - destruct c as [src ls|ls]; cbn [is_update perform run].
    + apply IH.
    + rewrite <- IH. apply run_arbitration_congr, backlight_arbitration.
Qed.

(** X5.  What the sysfs nodes answer changes neither the bookkeeping nor
    what is written: two runs of the same calls against different scripts of
    outcomes end with the same arbitration globals and have attempted the same
    writes in the same order. *)
Theorem run_independent_of_outcomes
  (script1 script2 : list io_result) (calls : list call) :
  arbitration (run calls (initial_state script1))
  = arbitration (run calls (initial_state script2))
  /\ writes_of (issued (run calls (initial_state script1)))
     = writes_of (issued (run calls (initial_state script2))).
Proof.
  split; [apply run_arbitration_congr | apply run_writes_congr]; reflexivity.
Qed.

Lemma update_writes_cases (src : source) (ls : light_state_t) (s : state) :
  In (new_writes (update src ls) s)
    [ []; breathing_sequence; buttons_on_sequence; off_sequence;
      off_sequence ++ breathing_sequence; off_sequence ++ buttons_on_sequence ].
Proof.
  rewrite update_writes.
  destruct (lights_up ls);
    destruct (winner (active_states (snd (update src ls s)))) as [[| | |]|];
    repeat match goal with
    | |- context [if ?c then _ else _] => destruct c
    end; cbn; rewrite ?app_nil_r; tauto.
Qed.

(** X6.  An update issues one of six write sequences and nothing else:
    nothing, the breathing pair, the buttons-on six, the off four, or the off
    four followed by one of the two.  So a call makes at most ten writes and
    each non-empty sequence starts by selecting a channel. *)
Theorem update_issues_one_of_six_sequences
  (src : source) (ls : light_state_t) (s : state) :
  In (new_writes (update src ls) s)
    [ []; breathing_sequence; buttons_on_sequence; off_sequence;
      off_sequence ++ breathing_sequence; off_sequence ++ buttons_on_sequence ]
  /\ (List.length (new_writes (update src ls) s) <= 10)%nat
  /\ (new_writes (update src ls) s = []
      \/ exists channel rest,
           new_writes (update src ls) s
           = (BREATH_RED_OUTN, PInt channel) :: rest).
Proof.
  pose proof (update_writes_cases src ls s) as H.
  split; [exact H|].
  cbn [In] in H.
  destruct H as [H|[H|[H|[H|[H|[H|[]]]]]]]; rewrite <- H; split;
    try (cbn; lia);
    first [ left; reflexivity | right; do 2 eexists; reflexivity ].
Qed.

Lemma rgb_to_brightness_range (ls : light_state_t) :
  0 <= rgb_to_brightness ls <= 255.
Proof.
  rewrite rgb_to_brightness_spec.
  pose proof (mask_byte_range (Z.shiftr (color ls) 16)).
  pose proof (mask_byte_range (Z.shiftr (color ls) 8)).
  pose proof (mask_byte_range (color ls)).
  split; [apply Z.div_pos; lia | apply Z.div_le_upper_bound; lia].
Qed.

Lemma update_allowed (src : source) (ls : light_state_t) (s : state) :
  forallb allowed_write (new_writes (update src ls) s) = true.
Proof.
  pose proof (update_writes_cases src ls s) as H. cbn [In] in H.
  destruct H as [H|[H|[H|[H|[H|[H|[]]]]]]]; rewrite <- H; reflexivity.
Qed.

Lemma perform_allowed (c : call) (s : state) :
  forallb allowed_write (writes_of (issued s)) = true ->
  forallb allowed_write (writes_of (issued (snd (perform c s)))) = true.
Proof.
  intros H. destruct c as [src ls|ls]; cbn [perform].
  - rewrite update_issued, writes_of_app, forallb_app, H.
    apply update_allowed.
  - rewrite backlight_issued, writes_of_app, forallb_app, H.
    pose proof (rgb_to_brightness_range ls) as [Hlo Hhi].
    apply Z.leb_le in Hlo, Hhi.
    cbn [writes_of map ev_path ev_data forallb allowed_write andb].
    now rewrite String.eqb_refl, Hlo, Hhi.
Qed.

(** X7.  Over any run from the initial state, every write ever attempted
    carries a value its control point accepts: 0 to 255 for the backlight, 8 or
    16 for the channel selector, 3 or 8 for the grade parameter, "6", "3" or
    "2" for the mode selector; no other control point is ever written. *)
Theorem every_write_fits_its_control_point
  (script : list io_result) (calls : list call) :
  forallb allowed_write (writes_of (issued (run calls (initial_state script))))
  = true.
Proof.
  assert (H : forall s,
             forallb allowed_write (writes_of (issued s)) = true ->
             forallb allowed_write (writes_of (issued (run calls s))) = true).
  { induction calls as [|c rest IH]; intros s Hs; cbn [run]; [exact Hs|].
    apply IH, perform_allowed, Hs. }
  apply H. reflexivity.
Qed.

Lemma source_code_buttons (w : option source) :
  source_code w = BREATH_SOURCE_BUTTONS -> w = Some Buttons.
Proof. destruct w as [[| | |]|]; cbn; intros H; try discriminate; reflexivity. Qed.

(** X8.  Buttons takes over: from a state whose [last_state] names the
    winner of its set, an update after which Buttons wins, while another source
    (or none) won before, writes the buttons-on sequence, after the off
    sequence when the update carried a zero red byte.  Dismissing a
    notification while the buttons are lit re-lights the buttons. *)
Theorem buttons_relit_when_taking_over
  (src : source) (ls : light_state_t) (s : state) :
  last_state s = source_code (winner (active_states s)) ->
  winner (active_states s) <> Some Buttons ->
  winner (active_states (snd (update src ls s))) = Some Buttons ->
  new_writes (update src ls) s
  = (if derived_brightness ls >? 0 then [] else off_sequence)
    ++ buttons_on_sequence.
Proof.
  intros Hs Hb Hw. rewrite update_writes, Hw.
  destruct (last_state s =? BREATH_SOURCE_BUTTONS) eqn:Hl; [|reflexivity].
  apply Z.eqb_eq in Hl. rewrite Hs in Hl.
  apply source_code_buttons in Hl. contradiction.
Qed.

(** A notification is dismissed while the buttons are lit. *)
Lemma buttons_relit_when_taking_over_witness :
  new_writes (update Notification (mkLight 0))
    (run [Update Buttons (mkLight 0xFF0000);
          Update Notification (mkLight 0x010000)] (initial_state []))
  = off_sequence ++ buttons_on_sequence.
Proof.
  apply (buttons_relit_when_taking_over Notification (mkLight 0)
           (run [Update Buttons (mkLight 0xFF0000);
                 Update Notification (mkLight 0x010000)] (initial_state [])));
    [vm_compute; reflexivity | discriminate | vm_compute; reflexivity].
Defined.

(** X9.  An update with a zero red byte that leaves Buttons the winner while
    Buttons was already the last applied source writes the off sequence and
    nothing after it: both channels have just been switched off and the
    buttons-on sequence is not written again, although the Buttons bit is set
    and [last_state] still says Buttons. *)
Theorem zero_update_leaves_buttons_dark
  (src : source) (ls : light_state_t) (s : state) :
  derived_brightness ls = 0 ->
  last_state s = BREATH_SOURCE_BUTTONS ->
  winner (active_states (snd (update src ls s))) = Some Buttons ->
  new_writes (update src ls) s = off_sequence
  /\ last_state (snd (update src ls s)) = BREATH_SOURCE_BUTTONS
  /\ bit_set (active_states (snd (update src ls s))) Buttons = true.
Proof.
  intros Hz Hl Hw. split; [|split].
  - rewrite update_writes, Hw, Hl. unfold lights_up. rewrite Hz. reflexivity.
  - rewrite update_winner, Hw. reflexivity.
  - apply winner_set, Hw.
Qed.

(** The battery, which was not lit, reports off while the buttons are lit. *)
Lemma zero_update_leaves_buttons_dark_witness :
  new_writes (update Battery (mkLight 0))
    (snd (update Buttons (mkLight 0xFF0000) (initial_state [])))
  = off_sequence
  /\ last_state
       (snd (update Battery (mkLight 0)
               (snd (update Buttons (mkLight 0xFF0000) (initial_state [])))))
     = BREATH_SOURCE_BUTTONS
  /\ bit_set
       (active_states
          (snd (update Battery (mkLight 0)
                  (snd (update Buttons (mkLight 0xFF0000) (initial_state []))))))
       Buttons = true.
Proof.
  apply (zero_update_leaves_buttons_dark Battery (mkLight 0)
           (snd (update Buttons (mkLight 0xFF0000) (initial_state []))));
    vm_compute; reflexivity.
Defined.

(** X10.  The backlight call hands the outcome of its one write back to its
    caller: minus the [errno] when the node cannot be opened or when [write]
    returns [-1], and success in every other case, a short write included. *)
Theorem backlight_returns_write_status (ls : light_state_t) (s : state) :
  (forall errno, next_result s = OpenFails errno ->
     fst (set_light_backlight ls s) = - errno)
  /\ (forall errno, next_result s = Written (-1) errno ->
        fst (set_light_backlight ls s) = - errno)
  /\ (forall amt errno, next_result s = Written amt errno -> amt <> -1 ->
        fst (set_light_backlight ls s) = 0).
Proof.
  rewrite backlight_status. split; [|split].
  - intros e H. now rewrite H.
  - intros e H. now rewrite H.
  - intros amt e H Hne. rewrite H. cbn [status_of].
    apply Z.eqb_neq in Hne. now rewrite Hne.
Qed.

(** The backlight node is missing ([ENOENT]). *)
Lemma backlight_returns_write_status_witness :
  fst (set_light_backlight (mkLight 0xFFFFFF) (initial_state [OpenFails 2])) = -2.
Proof.
  apply (proj1 (backlight_returns_write_status (mkLight 0xFFFFFF)
                  (initial_state [OpenFails 2])) 2).
  reflexivity.
Defined.

Lemma byte_of (z : Z) (k : Z) :
  0 <= k -> Z.land (Z.shiftr z k) 0xff = (z / 2 ^ k) mod 256.
Proof.
  intros Hk. rewrite Z.shiftr_div_pow2 by exact Hk.
  change (Z.land (z / 2 ^ k) 0xff) with (Z.land (z / 2 ^ k) (Z.ones 8)).
  now rewrite Z.land_ones by lia.
Qed.

Lemma pack_argb_bytes (alpha r g b : Z) :
  0 <= r < 256 -> 0 <= g < 256 -> 0 <= b < 256 ->
  (pack_argb alpha r g b / 2 ^ 16) mod 256 = r
  /\ (pack_argb alpha r g b / 2 ^ 8) mod 256 = g
  /\ (pack_argb alpha r g b / 2 ^ 0) mod 256 = b.
Proof.
  intros Hr Hg Hb. unfold pack_argb.
  change (2 ^ 24) with 16777216. change (2 ^ 16) with 65536.
  change (2 ^ 8) with 256. change (2 ^ 0) with 1.
  repeat split; Z.div_mod_to_equations; lia.
Qed.

(** X11.  For a colour packed from an alpha byte and three colour bytes, the
    backlight brightness is the truncated mean of the three colour bytes,
    whatever the alpha byte, and the brightness the breathing engine derives is
    the red byte alone. *)
Theorem packed_colour_decodes (alpha r g b : Z) :
  0 <= r < 256 -> 0 <= g < 256 -> 0 <= b < 256 ->
  rgb_to_brightness (mkLight (pack_argb alpha r g b)) = (r + g + b) / 3
  /\ derived_brightness (mkLight (pack_argb alpha r g b)) = r.
Proof.
  intros Hr Hg Hb.
  destruct (pack_argb_bytes alpha r g b Hr Hg Hb) as (Er & Eg & Eb).
  split.
  - rewrite rgb_to_brightness_spec. cbn [color].
    rewrite (byte_of _ 16), (byte_of _ 8) by lia.
    rewrite <- (Z.shiftr_0_r (pack_argb alpha r g b)) at 3.
    rewrite (byte_of _ 0) by lia.
    now rewrite Er, Eg, Eb.
  - unfold derived_brightness. cbn [color].
    change (2 ^ 8) with 256. exact Er.
Qed.

(** Opaque orange: alpha 255, red 255, green 128, blue 0. *)
Lemma packed_colour_decodes_witness :
  rgb_to_brightness (mkLight (pack_argb 255 255 128 0)) = 127
  /\ derived_brightness (mkLight (pack_argb 255 255 128 0)) = 255.
Proof.
  apply (packed_colour_decodes 255 255 128 0); lia.
Defined.

(** ** Runs in which every open succeeds *)

Lemma next_result_opens (s : state) :
  all_open (pending s) = true -> is_open_failure (next_result s) = false.
Proof.
  unfold next_result, all_open. destruct (pending s) as [|r rest]; cbn.
  - reflexivity.
  - intros H. apply andb_prop in H. destruct H as [H _].
    now apply negb_true_iff in H.
Qed.

Lemma all_open_tl (script : list io_result) :
  all_open script = true -> all_open (tl script) = true.
Proof.
  destruct script as [|r rest]; cbn; [trivial|].
  intros H. apply andb_prop in H. apply H.
Qed.

Lemma act_never_fails_to_open (a : action) (s : state) :
  never_fails_to_open s -> never_fails_to_open (act a s).
Proof.
  unfold never_fails_to_open. intros (Hp & Hi & Hs).
  pose proof (next_result_opens s Hp) as Hr.
  destruct a as [p v|p v|line]; cbn [act].
  - rewrite write_int_pending, write_int_issued, int_open_failures_snoc,
      str_open_failures_snoc, Hr, Hi, Hs.
    split; [now apply all_open_tl | split; reflexivity].
  - rewrite write_str_pending, write_str_issued, int_open_failures_snoc,
      str_open_failures_snoc, Hr, Hi, Hs.
    split; [now apply all_open_tl | split; reflexivity].
  - repeat split; assumption.
Qed.

Lemma exec_never_fails_to_open (acts : list action) (s : state) :
  never_fails_to_open s -> never_fails_to_open (exec acts s).
Proof.
  revert s. induction acts as [|a rest IH]; intros s H; cbn [exec]; [exact H|].
  apply IH, act_never_fails_to_open, H.
Qed.

Lemma perform_never_fails_to_open (c : call) (s : state) :
  never_fails_to_open s -> never_fails_to_open (snd (perform c s)).
Proof.
  intros H. destruct c as [src ls|ls]; cbn [perform].
  - rewrite update_settle. cbn [snd]. unfold settle.
    apply exec_never_fails_to_open.
    assert (Hoff : never_fails_to_open
                     (exec (v_off (decision src ls s))
                        (set_active_states (v_active (decision src ls s))
                           (store src ls s)))).
    { apply exec_never_fails_to_open. destruct src; exact H. }
    destruct (v_last (decision src ls s)); exact Hoff.
  - rewrite backlight_state. now apply act_never_fails_to_open.
Qed.

Lemma run_never_fails_to_open (calls : list call) (s : state) :
  never_fails_to_open s -> never_fails_to_open (run calls s).
Proof.
  revert s. induction calls as [|c rest IH]; intros s H; cbn [run]; [exact H|].
  apply IH, perform_never_fails_to_open, H.
Qed.

(** X12.  Only a failure to open is ever logged: over a run in which every
    node opens, neither [write_int] nor [write_str] logs a line, whatever
    [write] itself returns (an error or a short count included). *)
Theorem write_errors_are_not_logged
  (script : list io_result) (calls : list call) :
  all_open script = true ->
  filter is_int_message (logcat (run calls (initial_state script))) = []
  /\ filter is_str_message (logcat (run calls (initial_state script))) = [].
Proof.
  intros Hopen.
  assert (H0 : never_fails_to_open (initial_state script))
    by (split; [exact Hopen | split; reflexivity]).
  destruct (run_never_fails_to_open calls (initial_state script) H0)
    as (_ & Hi & Hs).
  destruct (run_discipline calls (initial_state script)
              (initial_discipline script)) as [[Li _] [Ls _]].
  rewrite Li, Ls, Hi, Hs. split; reflexivity.
Qed.

(** Every write of a lit notification fails with [EIO] after a good open. *)
Lemma write_errors_are_not_logged_witness :
  filter is_int_message
    (logcat (run [Update Notification (mkLight 0x010000)]
               (initial_state [Written (-1) 5; Written (-1) 5])))
  = []
  /\ filter is_str_message
       (logcat (run [Update Notification (mkLight 0x010000)]
                  (initial_state [Written (-1) 5; Written (-1) 5])))
     = [].
Proof.
  apply (write_errors_are_not_logged [Written (-1) 5; Written (-1) 5]
           [Update Notification (mkLight 0x010000)]).
  vm_compute; reflexivity.
Defined.

(** ** Opening a device *)

Lemma open_lights_unknown (name : string) :
  ~ In name light_ids -> open_lights name = (- EINVAL, None).
Proof.
  unfold light_ids, open_lights. cbn [In]. intros H.
  repeat match goal with
  | |- context [String.eqb ?id name] =>
      destruct (String.eqb id name) eqn:E;
      [apply String.eqb_eq in E; exfalso; apply H; tauto | clear E]
  end.
  reflexivity.
Qed.

(** X13.  [open_lights] knows five names and no other.  Each of the four
    breathing sources opens a device whose [set_light] is the update of that
    source, "backlight" opens one whose [set_light] is the backlight call, and
    any other name fails with [-EINVAL] and yields no device. *)
Theorem open_lights_dispatch :
  (forall src : source,
      exists dev, open_lights (light_id src) = (0, Some dev)
                  /\ common_version dev = 0
                  /\ forall ls s, set_light dev ls s = update src ls s)
  /\ (exists dev, open_lights LIGHT_ID_BACKLIGHT = (0, Some dev)
                  /\ common_version dev = 0
                  /\ forall ls s,
                       set_light dev ls s = set_light_backlight ls s)
  /\ (forall name : string,
         ~ In name light_ids -> open_lights name = (- EINVAL, None)).
Proof.
  split; [|split].
  - intros src. destruct src; eexists; (split; [reflexivity|]);
      split; reflexivity.
  - eexists. split; [reflexivity|]. split; reflexivity.
  - exact open_lights_unknown.
Qed.

(** A name the module does not know. *)
Lemma open_lights_dispatch_witness :
  open_lights "keyboard" = (-22, None).
Proof.
  apply (proj2 (proj2 open_lights_dispatch) "keyboard").
  cbn. intros H. repeat destruct H as [H|H]; try discriminate H; exact H.
Defined.

(** X14.  What a call never writes.  An update with a non-zero red byte never
    writes the off mode; a call after which the Buttons bit is set never
    writes the breathing mode; a call after which the Buttons bit is clear
    never writes the on mode and never touches the grade parameter. *)
Theorem modes_a_call_never_writes
  (src : source) (ls : light_state_t) (s : state) :
  (derived_brightness ls > 0 ->
   ~ In (BREATH_RED_LED, PStr BLINK_MODE_OFF) (new_writes (update src ls) s))
  /\ (bit_set (active_states (snd (update src ls s))) Buttons = true ->
      ~ In (BREATH_RED_LED, PStr BLINK_MODE_BREATH)
          (new_writes (update src ls) s))
  /\ (bit_set (active_states (snd (update src ls s))) Buttons = false ->
      ~ In (BREATH_RED_LED, PStr BLINK_MODE_ON) (new_writes (update src ls) s)
      /\ forall grade,
           ~ In (BREATH_RED_GRADE, PInt grade) (new_writes (update src ls) s)).
Proof.
  rewrite update_writes. unfold lights_up.
  split; [|split].
  - intros Hlit. apply Z.gtb_gt in Hlit. rewrite Hlit.
    destruct (winner (active_states (snd (update src ls s)))) as [[| | |]|];
      repeat match goal with
      | |- context [if ?c then _ else _] => destruct c
      end; cbn; intros H; repeat destruct H as [H|H]; try discriminate H;
      exact H.
  - intros Hb. rewrite Hb.
    destruct (winner (active_states (snd (update src ls s)))) as [[| | |]|];
      repeat match goal with
      | |- context [if ?c then _ else _] => destruct c
      end; cbn; intros H; repeat destruct H as [H|H]; try discriminate H;
      exact H.
  - intros Hb. rewrite Hb.
    destruct (winner (active_states (snd (update src ls s)))) as [[| | |]|] eqn:Hw;
      try (apply winner_set in Hw; rewrite Hb in Hw; discriminate Hw);
      repeat match goal with
      | |- context [if ?c then _ else _] => destruct c
      end; cbn; (split; [|intros grade]); intros H;
      repeat destruct H as [H|H]; try discriminate H; exact H.
Qed.

(** With the buttons lit, a notification does not make the LED breathe. *)
Lemma modes_a_call_never_writes_witness :
  ~ In (BREATH_RED_LED, PStr BLINK_MODE_BREATH)
      (new_writes (update Notification (mkLight 0x010000))
         (snd (update Buttons (mkLight 0xFF0000) (initial_state [])))).
Proof.
  apply (proj1 (proj2 (modes_a_call_never_writes Notification
                         (mkLight 0x010000)
                         (snd (update Buttons (mkLight 0xFF0000)
                                 (initial_state [])))))).
  vm_compute; reflexivity.
Defined.

(** X15.  Once every source has been switched off the engine is idle again:
    after a run from the initial state in which the last update of each
    updated source carried a zero red byte, the set is empty and [last_state]
    is None, whatever happened in between. *)
Theorem idle_when_all_switched_off
  (script : list io_result) (calls : list call) :
  all_switched_off calls = true ->
  active_states (run calls (initial_state script)) = 0
  /\ last_state (run calls (initial_state script)) = BREATH_SOURCE_NONE.
Proof.
  intros Hoff.
  assert (Ha : active_states (run calls (initial_state script)) = 0).
  { apply in_range_no_bits.
    - apply (run_known calls (initial_state script)), initial_known.
    - intros t. rewrite run_bit.
      unfold all_switched_off in Hoff. rewrite forallb_forall in Hoff.
      assert (Ht : In t priority) by (destruct t; cbn; tauto).
      specialize (Hoff t Ht).
      destruct (last_update t calls) as [ls|]; [|apply bit_set_zero].
      apply Z.eqb_eq in Hoff. unfold lights_up. now rewrite Hoff. }
  split; [exact Ha|].
  assert (Hs : settled (run calls (initial_state script)))
    by (apply run_settled; reflexivity).
  unfold settled in Hs. now rewrite Hs, Ha.
Qed.

(** Three sources come and go, with a backlight change in between. *)
Lemma idle_when_all_switched_off_witness :
  active_states
    (run [Update Buttons (mkLight 0xFF0000); Update Battery (mkLight 0x010000);
          SetBacklight (mkLight 0x808080); Update Buttons (mkLight 0);
          Update Notification (mkLight 0x00FF00); Update Battery (mkLight 0)]
       (initial_state [OpenFails 2]))
  = 0
  /\ last_state
       (run [Update Buttons (mkLight 0xFF0000); Update Battery (mkLight 0x010000);
             SetBacklight (mkLight 0x808080); Update Buttons (mkLight 0);
             Update Notification (mkLight 0x00FF00); Update Battery (mkLight 0)]
          (initial_state [OpenFails 2]))
     = BREATH_SOURCE_NONE.
Proof.
  apply (idle_when_all_switched_off [OpenFails 2]
           [Update Buttons (mkLight 0xFF0000); Update Battery (mkLight 0x010000);
            SetBacklight (mkLight 0x808080); Update Buttons (mkLight 0);
            Update Notification (mkLight 0x00FF00); Update Battery (mkLight 0)]).
  vm_compute; reflexivity.
Defined.

(** X16.  The short-circuit of the Buttons arm, for an update whose red byte
    is non-zero: if the winner of the resolution is Buttons and [last_state]
    was already Buttons, the call writes nothing.  So an update of Buttons
    that makes Buttons the winner writes the buttons-on sequence when Buttons
    was not the last applied source, and the same update repeated at once
    writes nothing. *)
Theorem buttons_short_circuit (ls : light_state_t) :
  derived_brightness ls > 0 ->
  (forall (src : source) (s : state),
      last_state s = BREATH_SOURCE_BUTTONS ->
      winner (active_states (snd (update src ls s))) = Some Buttons ->
      new_writes (update src ls) s = [])
  /\ (forall s : state,
         last_state s <> BREATH_SOURCE_BUTTONS ->
         winner (active_states (snd (update Buttons ls s))) = Some Buttons ->
         new_writes (update Buttons ls) s = buttons_on_sequence
         /\ new_writes (update Buttons ls) (snd (update Buttons ls s)) = []).
Proof.
  intros Hlit. apply Z.gtb_gt in Hlit.
  assert (A : forall src s,
             last_state s = BREATH_SOURCE_BUTTONS ->
             winner (active_states (snd (update src ls s))) = Some Buttons ->
             new_writes (update src ls) s = []).
  { intros src s Hl Hw. rewrite update_writes. unfold lights_up.
    rewrite Hw, Hl, Hlit. reflexivity. }
  split; [exact A|].
  intros s Hl Hw. split.
  - rewrite update_writes. unfold lights_up. rewrite Hw, Hlit.
    apply Z.eqb_neq in Hl. rewrite Hl. reflexivity.
  - apply A.
    + rewrite update_winner, Hw. reflexivity.
    + rewrite update_active_spec in Hw. rewrite !update_active_spec.
      unfold lights_up in *. rewrite Hlit in *.
      rewrite <- Z.lor_assoc, Z.lor_diag. exact Hw.
Qed.

(** Buttons is lit twice in a row from the initial state. *)
Lemma buttons_short_circuit_witness :
  new_writes (update Buttons (mkLight 0xFF0000)) (initial_state [])
  = buttons_on_sequence
  /\ new_writes (update Buttons (mkLight 0xFF0000))
       (snd (update Buttons (mkLight 0xFF0000) (initial_state [])))
     = [].
Proof.
  apply (proj2 (buttons_short_circuit (mkLight 0xFF0000) eq_refl)
           (initial_state []));
    [discriminate | vm_compute; reflexivity].
Defined.
